(** * request_logger: route classification, client identification and the
      logging middleware of [src/request_logger.py].

    Python [str] values are sequences of Unicode code points; they are modelled
    as [list N].  The regular expressions of the module are kept as syntax
    trees and run by a backtracking matcher that follows the interpreter's [re]
    engine on the constructs the module uses: literals, character classes,
    greedy repetition of a class, a greedy optional part, one capturing group,
    the start anchor, and the IGNORECASE flag. *)

From Stdlib Require Import String Ascii List NArith Bool Arith Lia.
Import ListNotations.

Local Open Scope N_scope.

(** ** Python values *)

Module Py.

Definition str := list N.

(** An ASCII literal of the source as a sequence of code points. *)
Definition py (s : string) : str :=
  List.map N_of_ascii (list_ascii_of_string s).

Definition str_eqb (a b : str) : bool :=
  if list_eq_dec N.eq_dec a b then true else false.

(** What a [str]-or-[None] expression evaluates to. *)
Inductive value : Type :=
| VNone
| VStr (s : str).

Inductive exn : Type :=
| IndexError
| ValueError.

Inductive result (A : Type) : Type :=
| Ok (a : A)
| Raise (e : exn).

Arguments Ok {A} a.
Arguments Raise {A} e.

Definition rbind {A B} (r : result A) (f : A -> result B) : result B :=
  match r with
  | Ok a => f a
  | Raise e => Raise e
  end.

(** How an f-string field renders a value. *)
Definition format (v : value) : str :=
  match v with
  | VNone => py "None"
  | VStr s => s
  end.

End Py.
Import Py.

Notation "x <- r ;; k" := (rbind r (fun x => k))
  (at level 61, r at next level, right associativity).

(** ** The [re] engine on the constructs used by the module *)

Module Re.

(** Ranges of the code points of Unicode category Nd (Unicode 14.0, the table
    of CPython 3.11): what [\d] accepts in a [str] pattern. *)
Definition decimal_ranges : list (N * N) :=
  [ (48, 57); (1632, 1641); (1776, 1785); (1984, 1993); (2406, 2415);
    (2534, 2543); (2662, 2671); (2790, 2799); (2918, 2927); (3046, 3055);
    (3174, 3183); (3302, 3311); (3430, 3439); (3558, 3567); (3664, 3673);
    (3792, 3801); (3872, 3881); (4160, 4169); (4240, 4249); (6112, 6121);
    (6160, 6169); (6470, 6479); (6608, 6617); (6784, 6793); (6800, 6809);
    (6992, 7001); (7088, 7097); (7232, 7241); (7248, 7257); (42528, 42537);
    (43216, 43225); (43264, 43273); (43472, 43481); (43504, 43513);
    (43600, 43609); (44016, 44025); (65296, 65305); (66720, 66729);
    (68912, 68921); (69734, 69743); (69872, 69881); (69942, 69951);
    (70096, 70105); (70384, 70393); (70736, 70745); (70864, 70873);
    (71248, 71257); (71360, 71369); (71472, 71481); (71904, 71913);
    (72016, 72025); (72784, 72793); (73040, 73049); (73120, 73129);
    (92768, 92777); (92864, 92873); (93008, 93017); (120782, 120831);
    (123200, 123209); (123632, 123641); (125264, 125273); (130032, 130041) ].

Definition unicode_isdecimal (c : N) : bool :=
  existsb (fun r => (fst r <=? c) && (c <=? snd r)) decimal_ranges.

(** The interpreter's simple lowercase mapping, written out on the code points
    that lower into ASCII: [A-Z], U+0130 and U+212A.  The literals of this
    module's patterns are ASCII, so a code point that lowers elsewhere never
    meets one of them and is left in place here. *)
Definition unicode_tolower (c : N) : N :=
  if (65 <=? c) && (c <=? 90) then c + 32
  else if c =? 304 then 105
  else if c =? 8490 then 107
  else c.

(** The engine's case-fix table on ASCII keys: dotless i for [i], long s for
    [s]. *)
Definition ignorecase_fixes (lo : N) : list N :=
  if lo =? 105 then [305]
  else if lo =? 115 then [383]
  else [].

(** Does the literal [p] of a pattern accept the input code point [c]? *)
Definition lit_accepts (ignorecase : bool) (p c : N) : bool :=
  if ignorecase then
    let lo := unicode_tolower p in
    let x := unicode_tolower c in
    (x =? lo) || existsb (N.eqb x) (ignorecase_fixes lo)
  else c =? p.

Inductive citem : Type :=
| CChar (c : N)
| CRange (lo hi : N)
| CDigit.

Record cset : Type := CSet { negated : bool; items : list citem }.

Definition item_has (it : citem) (c : N) : bool :=
  match it with
  | CChar x => c =? x
  | CRange lo hi => (lo <=? c) && (c <=? hi)
  | CDigit => unicode_isdecimal c
  end.

(** Class membership.  The one class the module uses under IGNORECASE,
    [[\d.]], holds no cased character, and the engine runs such a class as a
    plain one. *)
Definition cset_has (cs : cset) (c : N) : bool :=
  xorb (negated cs) (existsb (fun it => item_has it c) (items cs)).

Inductive regex : Type :=
| Eps
| Bol
| Chr (c : N)
| Cls (cs : cset)
| Cat (r1 r2 : regex)
| Opt (r : regex)
| Star (cs : cset)
| Plus (cs : cset)
| Grp (i : nat) (r : regex).

(** A run of literals. *)
Fixpoint lits (w : str) : regex :=
  match w with
  | [] => Eps
  | c :: w' => Cat (Chr c) (lits w')
  end.

Definition lit (s : string) : regex := lits (py s).

(** Number of capturing groups of a pattern (groups are numbered from 1 in
    the order of their opening parentheses). *)
Fixpoint ngroups (r : regex) : nat :=
  match r with
  | Cat r1 r2 => (ngroups r1 + ngroups r2)%nat
  | Opt r' => ngroups r'
  | Grp _ r' => S (ngroups r')
  | _ => 0%nat
  end.

(** Matcher state: offset in the subject, what is left of it, and the groups
    closed so far, the last closed first. *)
Record mstate : Type :=
  MState { ms_pos : nat; ms_rest : str; ms_caps : list (nat * str) }.

Definition cont := mstate -> option mstate.

Definition one (p : N -> bool) (st : mstate) (k : cont) : option mstate :=
  match ms_rest st with
  | c :: s' => if p c then k (MState (S (ms_pos st)) s' (ms_caps st)) else None
  | [] => None
  end.

(** Greedy repetition of a class: take as many as possible, give one back at
    a time while the rest of the pattern fails. *)
Fixpoint greedy (p : N -> bool) (k : cont) (caps : list (nat * str))
    (pos : nat) (s : str) : option mstate :=
  match s with
  | c :: s' =>
      if p c then
        match greedy p k caps (S pos) s' with
        | Some m => Some m
        | None => k (MState pos s caps)
        end
      else k (MState pos s caps)
  | [] => k (MState pos [] caps)
  end.

Fixpoint mt (ignorecase : bool) (r : regex) (st : mstate) (k : cont)
    : option mstate :=
  match r with
  | Eps => k st
  | Bol => if Nat.eqb (ms_pos st) 0 then k st else None
  | Chr p => one (lit_accepts ignorecase p) st k
  | Cls cs => one (cset_has cs) st k
  | Cat r1 r2 => mt ignorecase r1 st (fun st' => mt ignorecase r2 st' k)
  | Opt r' =>
      match mt ignorecase r' st k with
      | Some m => Some m
      | None => k st
      end
  | Star cs => greedy (cset_has cs) k (ms_caps st) (ms_pos st) (ms_rest st)
  | Plus cs =>
      one (cset_has cs) st
        (fun st' => greedy (cset_has cs) k (ms_caps st') (ms_pos st') (ms_rest st'))
  | Grp i r' =>
      mt ignorecase r' st
        (fun st' =>
           k (MState (ms_pos st') (ms_rest st')
                ((i, firstn (ms_pos st' - ms_pos st) (ms_rest st)) :: ms_caps st')))
  end.

(** A match object: the number of groups of its pattern, the matched text and
    the groups that took part. *)
Record Match : Type :=
  MkMatch { m_groups : nat; m_text : str; m_caps : list (nat * str) }.

Definition match_at (ignorecase : bool) (r : regex) (pos : nat) (s : str)
    : option Match :=
  match mt ignorecase r (MState pos s []) Some with
  | Some st => Some (MkMatch (ngroups r) (firstn (ms_pos st - pos) s) (ms_caps st))
  | None => None
  end.

(** [re.match(pattern, string)]: a match at offset 0 only. *)
Definition re_match (ignorecase : bool) (r : regex) (s : str) : option Match :=
  match_at ignorecase r 0 s.

Fixpoint search_from (ignorecase : bool) (r : regex) (pos : nat) (s : str)
    : option Match :=
  match match_at ignorecase r pos s with
  | Some m => Some m
  | None =>
      match s with
      | [] => None
      | _ :: s' => search_from ignorecase r (S pos) s'
      end
  end.

(** [re.search(pattern, string)]: the match at the leftmost offset that has
    one. *)
Definition re_search (ignorecase : bool) (r : regex) (s : str) : option Match :=
  search_from ignorecase r 0 s.

Fixpoint assoc (i : nat) (l : list (nat * str)) : option str :=
  match l with
  | [] => None
  | (j, s) :: l' => if Nat.eqb i j then Some s else assoc i l'
  end.

(** [match.group(i)]: the matched text for 0, the text of group [i] or [None]
    when the group took no part, IndexError when the pattern has no such
    group. *)
Definition group (m : Match) (i : nat) : result value :=
  match i with
  | O => Ok (VStr (m_text m))
  | S _ =>
      if Nat.leb i (m_groups m) then
        Ok (match assoc i (m_caps m) with
            | Some s => VStr s
            | None => VNone
            end)
      else Raise IndexError
  end.

(** [match.lastindex]: the index of the group closed last, [None] when no
    group took part. *)
Definition lastindex (m : Match) : option nat :=
  match m_caps m with
  | [] => None
  | (i, _) :: _ => Some i
  end.

End Re.
Import Re.

(** ** The module *)

Definition IGNORECASE : bool := true.
Definition NOFLAG : bool := false.

(** Concatenation of the parts of a pattern, left to right. *)
Fixpoint parts (rs : list regex) : regex :=
  match rs with
  | [] => Eps
  | r :: rs' => Cat r (parts rs')
  end.

(** [[^:]] *)
Definition not_colon : cset := CSet true [CChar 58].
(** [[\d.]] *)
Definition digit_dot : cset := CSet false [CDigit; CChar 46].
(** [[A-Za-z]] *)
Definition letter : cset := CSet false [CRange 65 90; CRange 97 122].
(** [[A-Za-z0-9_-]] *)
Definition name_char : cset :=
  CSet false [CRange 65 90; CRange 97 122; CRange 48 57; CChar 95; CChar 45].

Definition API_PATTERNS : list (regex * str) :=
  [ (* ^/antigravity/v1(?:beta)?/models/([^:]+): *)
    (parts [Bol; lit "/antigravity/v1"; Opt (lit "beta"); lit "/models/";
            Grp 1 (Plus not_colon); Chr 58],
     py "antigravity");
    (* ^/antigravity/v1/chat/completions *)
    (parts [Bol; lit "/antigravity/v1/chat/completions"], py "antigravity");
    (* ^/antigravity/v1/messages *)
    (parts [Bol; lit "/antigravity/v1/messages"], py "antigravity");
    (* ^/v1(?:beta)?/models/([^:]+): *)
    (parts [Bol; lit "/v1"; Opt (lit "beta"); lit "/models/";
            Grp 1 (Plus not_colon); Chr 58],
     py "geminicli");
    (* ^/v1/chat/completions *)
    (parts [Bol; lit "/v1/chat/completions"], py "geminicli");
    (* ^/v1/messages *)
    (parts [Bol; lit "/v1/messages"], py "geminicli") ].

(** A known-client pattern, [(NAME)/[\d.]+]. *)
Definition product (name : string) : regex :=
  parts [Grp 1 (lit name); Chr 47; Plus digit_dot].

Definition client_patterns : list regex :=
  [ product "CherryStudio";
    product "Cursor";
    product "VSCode";
    product "Insomnia";
    product "Postman";
    product "HTTPie";
    product "curl";
    product "python-requests";
    product "axios";
    product "node-fetch";
    product "Electron" ].

(** The generic ProductName/Version pattern: anchored at the start, a group
    holding one [[A-Za-z]] and then any number of [[A-Za-z0-9_-]], followed by
    a slash. *)
Definition generic_product : regex :=
  parts [Bol; Grp 1 (Cat (Cls letter) (Star name_char)); Chr 47].

(** The [for pattern in client_patterns] loop: [Some r] when an iteration
    returned [r], [None] when the loop ran off the end of the list. *)
Fixpoint known_client (patterns : list regex) (user_agent : str)
    : option (result value) :=
  match patterns with
  | [] => None
  | pattern :: patterns' =>
      match re_search IGNORECASE pattern user_agent with
      | Some m => Some (group m 1)
      | None => known_client patterns' user_agent
      end
  end.

Definition extract_client_name (user_agent : str) : result value :=
  match user_agent with
  | [] => Ok (VStr (py "Unknown"))
  | _ :: _ =>
      match known_client client_patterns user_agent with
      | Some r => r
      | None =>
          match re_search NOFLAG generic_product user_agent with
          | Some m => group m 1
          | None => Ok (VStr (py "Browser"))
          end
      end
  end.

(** [match.group(1) if match.lastindex else "chat"] *)
Definition model_of (m : Match) : result value :=
  match lastindex m with
  | Some (S _) => group m 1
  | _ => Ok (VStr (py "chat"))
  end.

(** The [for pattern, mode in API_PATTERNS] loop of [parse_request_info],
    over the rules still to try. *)
Fixpoint parse_rules (rules : list (regex * str)) (path user_agent : str)
    : result (option (str * value * value)) :=
  match rules with
  | [] => Ok None
  | (pattern, mode) :: rules' =>
      match re_match NOFLAG pattern path with
      | Some m =>
          model <- model_of m ;;
          client <- extract_client_name user_agent ;;
          Ok (Some (mode, model, client))
      | None => parse_rules rules' path user_agent
      end
  end.

Definition parse_request_info (path user_agent : str)
    : result (option (str * value * value)) :=
  parse_rules API_PATTERNS path user_agent.

(** ** The middleware *)

(** A request whose URL reads, in the part the middleware uses: the path
    that [request.url.path] gives and the header list, names in lower case as
    the server hands them over. *)
Record Request : Type :=
  MkRequest { url_path : str; headers : list (str * str) }.

(** A request as it reaches [dispatch].  The framework builds [request.url]
    from the scheme, the Host header and the path and splits it when it is
    first read; the split raises on some Host headers ([ValueError] for a
    lone opening bracket).  So reading [request.url] either gives the request
    with its path, or raises. *)
Inductive Incoming : Type :=
| Readable (request : Request)
| Unreadable (e : exn).

Coercion Readable : Request >-> Incoming.

(** [request.url], read. *)
Definition read_url (incoming : Incoming) : result Request :=
  match incoming with
  | Readable request => Ok request
  | Unreadable e => Raise e
  end.

(** [headers.get(key, default)] *)
Fixpoint headers_get (hs : list (str * str)) (key default : str) : str :=
  match hs with
  | [] => default
  | (k, v) :: hs' => if str_eqb k key then v else headers_get hs' key default
  end.

Definition rocket : str := [128640].
Definition sparkles : str := [10024].

Section Middleware.

Variable Response : Type.

(** A run of [dispatch]: it ends with a value or an exception, writes a line
    to the log sink, or awaits the rest of the pipeline. *)
Inductive prog (A : Type) : Type :=
| Ret (a : A)
| Throw (e : exn)
| LogInfo (line : str) (k : prog A)
| CallNext (request : Request) (k : Response -> prog A).

Arguments Ret {A} a.
Arguments Throw {A} e.
Arguments LogInfo {A} line k.
Arguments CallNext {A} request k.

Fixpoint bind {A B} (p : prog A) (f : A -> prog B) : prog B :=
  match p with
  | Ret a => f a
  | Throw e => Throw e
  | LogInfo line k => LogInfo line (bind k f)
  | CallNext request k => CallNext request (fun r => bind (k r) f)
  end.

Definition lift {A} (r : result A) : prog A :=
  match r with
  | Ok a => Ret a
  | Raise e => Throw e
  end.

(** Modelled from the spec: [log.info] of the repository's [log] module,
    whose code is not among the sources read here.  The sink takes the line
    at informational severity and returns; a failing sink is not this
    module's concern. *)
Definition log_info (line : str) : prog unit := LogInfo line (Ret tt).

(** [await call_next(request)]: the rest of the pipeline, which answers with a
    response or raises. *)
Definition call_next (request : Request) : prog Response :=
  CallNext request (fun r => Ret r).

Definition dispatch (incoming : Incoming) : prog Response :=
  bind (lift (read_url incoming)) (fun request =>
  let path := url_path request in
  let user_agent := headers_get (headers request) (py "user-agent") (py "") in
  bind (lift (parse_request_info path user_agent)) (fun info =>
  bind (match info with
        | Some (mode, model, client) =>
            let emoji := if str_eqb mode (py "antigravity") then rocket else sparkles in
            log_info (emoji ++ py " " ++ format model ++ py " | " ++ format client)
        | None => Ret tt
        end) (fun _ =>
  bind (call_next request) (fun response =>
  Ret response)))).

(** What a run does to the outside: lines handed to [log.info] and requests
    handed to the next handler, in order. *)
Inductive event : Type :=
| Logged (line : str)
| Forwarded (request : Request).

(** Run against a next handler, which answers a request with a response or
    raises. *)
Fixpoint run {A} (next : Request -> result Response) (p : prog A)
    : list event * result A :=
  match p with
  | Ret a => ([], Ok a)
  | Throw e => ([], Raise e)
  | LogInfo line k =>
      let (t, r) := run next k in (Logged line :: t, r)
  | CallNext request k =>
      match next request with
      | Ok resp => let (t, r) := run next (k resp) in (Forwarded request :: t, r)
      | Raise e => ([Forwarded request], Raise e)
      end
  end.

Definition logged (t : list event) : list str :=
  flat_map (fun e => match e with Logged l => [l] | Forwarded _ => [] end) t.


End Middleware.

Arguments Ret {Response A} a.
Arguments Throw {Response A} e.
Arguments LogInfo {Response A} line k.
Arguments CallNext {Response A} request k.
Arguments bind {Response A B} p f.
Arguments lift {Response A} r.
Arguments run {Response A} next p.

(** ** Vocabulary of the statements *)

(** The product names written in the known-client patterns. *)
Definition client_names : list string :=
  [ "CherryStudio"; "Cursor"; "VSCode"; "Insomnia"; "Postman"; "HTTPie";
    "curl"; "python-requests"; "axios"; "node-fetch"; "Electron" ]%string.

(** [matches ic r st st']: the pattern [r] can take the matcher from [st] to
    [st'] (any way of matching, not only the one the engine prefers). *)
Inductive matches (ic : bool) : regex -> mstate -> mstate -> Prop :=
| M_Eps st : matches ic Eps st st
| M_Bol st : ms_pos st = 0%nat -> matches ic Bol st st
| M_Chr p c pos s caps :
    lit_accepts ic p c = true ->
    matches ic (Chr p) (MState pos (c :: s) caps) (MState (S pos) s caps)
| M_Cls cs c pos s caps :
    cset_has cs c = true ->
    matches ic (Cls cs) (MState pos (c :: s) caps) (MState (S pos) s caps)
| M_Cat r1 r2 st1 st2 st3 :
    matches ic r1 st1 st2 -> matches ic r2 st2 st3 ->
    matches ic (Cat r1 r2) st1 st3
| M_Opt_take r st st' : matches ic r st st' -> matches ic (Opt r) st st'
| M_Opt_skip r st : matches ic (Opt r) st st
| M_Star cs u pos s caps :
    forallb (cset_has cs) u = true ->
    matches ic (Star cs) (MState pos (u ++ s) caps)
      (MState (pos + length u) s caps)
| M_Plus cs c u pos s caps :
    forallb (cset_has cs) (c :: u) = true ->
    matches ic (Plus cs) (MState pos (c :: u ++ s) caps)
      (MState (pos + length (c :: u)) s caps)
| M_Grp i r st st' :
    matches ic r st st' ->
    matches ic (Grp i r) st
      (MState (ms_pos st') (ms_rest st')
         ((i, firstn (ms_pos st' - ms_pos st) (ms_rest st)) :: ms_caps st')).

(** A literal is accepted letter by letter. *)
Definition accepts (ic : bool) (w u : str) : Prop :=
  Forall2 (fun p c => lit_accepts ic p c = true) w u.

Fixpoint accepts_prefix (ic : bool) (w s : str) : bool :=
  match w, s with
  | [], _ => true
  | p :: w', c :: s' => lit_accepts ic p c && accepts_prefix ic w' s'
  | _ :: _, [] => false
  end.

Definition no_match (path : str) (rule : regex * str) : Prop :=
  re_match NOFLAG (fst rule) path = None.

(** No known-client pattern matches the User-Agent. *)
Definition no_known_client (ua : str) : Prop :=
  Forall (fun p => re_search IGNORECASE p ua = None) client_patterns.

Definition user_agent_of (request : Request) : str :=
  headers_get (headers request) (py "user-agent") (py "").

Definition emoji_of (mode : str) : str :=
  if str_eqb mode (py "antigravity") then rocket else sparkles.

(** A product name as the generic pattern reads it: a letter, then letters,
    digits, underscores and hyphens. *)
Definition product_name (name : str) : bool :=
  match name with
  | c :: run => cset_has letter c && forallb (cset_has name_char) run
  | [] => false
  end.

(** The User-Agent opens with a ProductName/Version token: a product name
    and a slash (the pattern asks nothing of what follows the slash). *)
Definition leading_token (ua : str) : Prop :=
  exists name rest, product_name name = true /\ ua = name ++ 47 :: rest.

(** [classified path mode model]: whatever the User-Agent, the path is
    classified with this mode and model, and a request for it makes the
    middleware log the one line for them. *)
Definition classified (path mode model : str) : Prop :=
  forall ua, exists client,
    extract_client_name ua = Ok (VStr client) /\
    parse_request_info path ua = Ok (Some (mode, VStr model, VStr client)) /\
    forall (Response : Type) (next : Request -> result Response) hs,
      user_agent_of (MkRequest path hs) = ua ->
      logged (fst (run next (dispatch Response (MkRequest path hs)))) =
      [emoji_of mode ++ py " " ++ model ++ py " | " ++ client].

(** [path] starts with [w]. *)
Definition starts_with (w path : str) : Prop :=
  exists rest, path = w ++ rest.

(** [path] is a model route under [pfx] naming the model [g]: the prefix, an
    optional [beta], [/models/], the model without colon, a colon, anything. *)
Definition model_path (pfx : string) (path g : str) : Prop :=
  exists mid rest,
    (mid = [] \/ mid = py "beta") /\ g <> [] /\
    forallb (cset_has not_colon) g = true /\
    path = py pfx ++ mid ++ py "/models/" ++ g ++ 58 :: rest.

(** The three routes of one API surface, with the model each one gives. *)
Definition route_shape (pfx : string) (path model : str) : Prop :=
  model_path pfx path model \/
  (model = py "chat" /\
   (starts_with (py pfx ++ py "/chat/completions") path \/
    starts_with (py pfx ++ py "/messages") path)).

(** A code point a client name can hold: ASCII letters, digits, underscore
    and hyphen, and the three letters that IGNORECASE folds onto [i] and
    [s]. *)
Definition client_char (c : N) : Prop :=
  cset_has name_char c = true \/ c = 304 \/ c = 305 \/ c = 383.

(** A literal of a listed client name: a name character other than [k],
    the one letter with a fold partner outside [client_char]. *)
Definition name_literal (p : N) : bool :=
  cset_has name_char p && negb (p =? 75) && negb (p =? 107).

(** ** What the matcher accepts *)

Module ReFacts.

#[local] Hint Constructors matches : core.

Lemma greedy_sound p k caps s : forall pos m,
  greedy p k caps pos s = Some m ->
  exists u s', s = u ++ s' /\ forallb p u = true /\
               k (MState (pos + length u) s' caps) = Some m.
Proof.
  induction s as [|c s IH]; intros pos m H; simpl in H.
  - exists [], []. simpl. rewrite Nat.add_0_r. auto.
  - destruct (p c) eqn:Hc.
    + destruct (greedy p k caps (S pos) s) as [m'|] eqn:Hg.
      * inversion H; subst m'. destruct (IH _ _ Hg) as (u & s' & -> & Hu & Hk).
        exists (c :: u), s'. simpl. rewrite Hc, Hu.
        rewrite <- Nat.add_succ_comm. auto.
      * exists [], (c :: s). simpl. rewrite Nat.add_0_r. auto.
    + exists [], (c :: s). simpl. rewrite Nat.add_0_r. auto.
Qed.

(** Whatever the matcher returns went through a way of matching the pattern
    and then through the continuation. *)
Lemma mt_sound ic r : forall st k m,
  mt ic r st k = Some m ->
  exists st', matches ic r st st' /\ k st' = Some m.
Proof.
  induction r; intros st k m H; simpl in H.
  - eauto.
  - destruct (Nat.eqb (ms_pos st) 0) eqn:E; [|discriminate].
    apply Nat.eqb_eq in E. eauto.
  - destruct st as [pos [|x s] caps]; unfold one in H; simpl in H; [discriminate|].
    destruct (lit_accepts ic c x) eqn:E; [|discriminate]. eauto.
  - destruct st as [pos [|x s] caps]; unfold one in H; simpl in H; [discriminate|].
    destruct (cset_has cs x) eqn:E; [|discriminate]. eauto.
  - apply IHr1 in H. destruct H as (st2 & H1 & H2).
    apply IHr2 in H2. destruct H2 as (st3 & H2 & H3). eauto.
  - destruct (mt ic r st k) as [m'|] eqn:E.
    + inversion H; subst m'. apply IHr in E. destruct E as (st' & ? & ?). eauto.
    + eauto.
  - destruct st as [pos s caps]. simpl in H.
    apply greedy_sound in H. destruct H as (u & s' & -> & Hu & Hk). eauto.
  - destruct st as [pos [|x s] caps]; unfold one in H; simpl in H; [discriminate|].
    destruct (cset_has cs x) eqn:E; [|discriminate].
    apply greedy_sound in H. destruct H as (u & s' & -> & Hu & Hk).
    exists (MState (pos + length (x :: u)) s' caps). split.
    + apply M_Plus. simpl. now rewrite E, Hu.
    + simpl. now rewrite <- Nat.add_succ_comm.
  - apply IHr in H. destruct H as (st' & H1 & H2). eauto.
Qed.

(** A way of matching consumes a prefix of what was left and advances the
    offset by its length. *)
Lemma matches_frame ic r st st' :
  matches ic r st st' ->
  exists u, ms_rest st = u ++ ms_rest st' /\
            ms_pos st' = (ms_pos st + length u)%nat.
Proof.
  induction 1; simpl.
  - exists []. simpl. auto.
  - exists []. simpl. auto.
  - exists [c]. simpl. split; [reflexivity | lia].
  - exists [c]. simpl. split; [reflexivity | lia].
  - destruct IHmatches1 as (u1 & E1 & P1), IHmatches2 as (u2 & E2 & P2).
    exists (u1 ++ u2). rewrite E1, E2, P2, P1, length_app, <- app_assoc.
    split; [reflexivity | lia].
  - assumption.
  - exists []. simpl. auto.
  - exists u. auto.
  - exists (c :: u). auto.
  - assumption.
Qed.

Lemma matches_Grp_inv ic i r st st2 :
  matches ic (Grp i r) st st2 ->
  exists st' u, matches ic r st st' /\ ms_rest st = u ++ ms_rest st' /\
    ms_pos st' = (ms_pos st + length u)%nat /\
    st2 = MState (ms_pos st') (ms_rest st') ((i, u) :: ms_caps st').
Proof.
  intros H. inversion H as [| | | | | | | | |i' r' st0 st' Hr]; subst.
  destruct (matches_frame _ _ _ _ Hr) as (u & E & P).
  exists st', u. repeat split; auto.
  rewrite P, E. replace (ms_pos st + length u - ms_pos st)%nat with (length u) by lia.
  now rewrite firstn_app, Nat.sub_diag, firstn_all, app_nil_r.
Qed.

(** A pattern without groups leaves the closed groups as they were. *)
Lemma matches_caps ic r st st' :
  matches ic r st st' -> ngroups r = 0%nat -> ms_caps st' = ms_caps st.
Proof.
  induction 1; simpl; intros G; auto; try discriminate.
  apply Nat.eq_add_0 in G. destruct G as [G1 G2].
  rewrite IHmatches2, IHmatches1; auto.
Qed.

Ltac inv H := inversion H; subst; clear H.

Lemma matches_Cat_inv ic r1 r2 st st3 :
  matches ic (Cat r1 r2) st st3 ->
  exists st2, matches ic r1 st st2 /\ matches ic r2 st2 st3.
Proof. intros H; inv H; eauto. Qed.

Lemma matches_Eps_inv ic st st' : matches ic Eps st st' -> st' = st.
Proof. intros H; now inv H. Qed.

Lemma matches_Bol_inv ic st st' :
  matches ic Bol st st' -> st' = st /\ ms_pos st = 0%nat.
Proof. intros H; inv H; auto. Qed.

Lemma matches_Chr_inv ic p st st' :
  matches ic (Chr p) st st' ->
  exists c, lit_accepts ic p c = true /\ ms_rest st = c :: ms_rest st' /\
            ms_pos st' = S (ms_pos st) /\ ms_caps st' = ms_caps st.
Proof. intros H; inv H; simpl; eauto. Qed.

Lemma matches_Cls_inv ic cs st st' :
  matches ic (Cls cs) st st' ->
  exists c, cset_has cs c = true /\ ms_rest st = c :: ms_rest st' /\
            ms_pos st' = S (ms_pos st) /\ ms_caps st' = ms_caps st.
Proof. intros H; inv H; simpl; eauto. Qed.

Lemma matches_Star_inv ic cs st st' :
  matches ic (Star cs) st st' ->
  exists u, forallb (cset_has cs) u = true /\ ms_rest st = u ++ ms_rest st' /\
            ms_caps st' = ms_caps st.
Proof. intros H; inv H; simpl; eauto. Qed.

Lemma matches_Plus_inv ic cs st st' :
  matches ic (Plus cs) st st' ->
  exists c u, forallb (cset_has cs) (c :: u) = true /\
              ms_rest st = (c :: u) ++ ms_rest st' /\ ms_caps st' = ms_caps st.
Proof. intros H; inv H; simpl; eauto. Qed.

Lemma matches_lits ic w : forall st st',
  matches ic (lits w) st st' ->
  exists u, accepts ic w u /\ ms_rest st = u ++ ms_rest st' /\
            ms_caps st' = ms_caps st.
Proof.
  induction w as [|p w IH]; intros st st' H; simpl in H.
  - apply matches_Eps_inv in H. subst. exists []. repeat split. constructor.
  - apply matches_Cat_inv in H. destruct H as (st2 & H1 & H2).
    apply matches_Chr_inv in H1. destruct H1 as (c & Hc & E1 & _ & C1).
    apply IH in H2. destruct H2 as (u & Hu & E2 & C2).
    exists (c :: u). repeat split.
    + constructor; assumption.
    + now rewrite E1, E2.
    + congruence.
Qed.

Lemma ngroups_lits w : ngroups (lits w) = 0%nat.
Proof. induction w; simpl; auto. Qed.

(** Without IGNORECASE a literal accepts itself only. *)
Lemma accepts_exact w u : accepts false w u -> u = w.
Proof.
  induction 1 as [|p c w u Hc _ IH]; [reflexivity|].
  simpl in Hc. apply N.eqb_eq in Hc. now subst.
Qed.

(** The matcher on a run of literals, in closed form. *)
Lemma mt_lits ic w : forall pos s caps k,
  mt ic (lits w) (MState pos s caps) k =
  if accepts_prefix ic w s
  then k (MState (pos + length w) (skipn (length w) s) caps)
  else None.
Proof.
  induction w as [|p w IH]; intros pos s caps k; simpl.
  - now rewrite Nat.add_0_r.
  - destruct s as [|c s]; unfold one; simpl; [reflexivity|].
    destruct (lit_accepts ic p c); simpl; [|reflexivity].
    rewrite IH. now rewrite Nat.add_succ_comm.
Qed.

Lemma accepts_prefix_app ic w u s :
  accepts ic w u -> accepts_prefix ic w (u ++ s) = true.
Proof.
  induction 1 as [|p c w u Hc _ IH]; simpl; [reflexivity|].
  now rewrite Hc, IH.
Qed.

Lemma accepts_length ic w u : accepts ic w u -> length u = length w.
Proof. intros H. symmetry. exact (Forall2_length H). Qed.

(** Greedy repetition never fails when nothing has to follow it. *)
Lemma greedy_Some p caps s : forall pos,
  exists st, greedy p Some caps pos s = Some st /\ ms_caps st = caps.
Proof.
  induction s as [|c s IH]; intros pos; simpl; eauto.
  destruct (p c); eauto.
  destruct (IH (S pos)) as (st & -> & ?). eauto.
Qed.

(** What the engine reports comes from a way of matching at that offset. *)
Lemma match_at_sound ic r pos s m :
  match_at ic r pos s = Some m ->
  exists st', matches ic r (MState pos s []) st' /\
              m_groups m = ngroups r /\ m_caps m = ms_caps st'.
Proof.
  unfold match_at. intros H.
  destruct (mt ic r (MState pos s []) Some) as [st|] eqn:E; [|discriminate].
  inv H. apply mt_sound in E. destruct E as (st' & Hm & Hk). inv Hk. eauto.
Qed.

Lemma search_from_sound ic r s : forall pos m,
  search_from ic r pos s = Some m ->
  exists pre post, s = pre ++ post /\
                   match_at ic r (pos + length pre) post = Some m.
Proof.
  induction s as [|c s IH]; intros pos m H; simpl in H.
  - destruct (match_at ic r pos []) eqn:E; [|discriminate]. inv H.
    exists [], []. simpl. now rewrite Nat.add_0_r.
  - destruct (match_at ic r pos (c :: s)) eqn:E.
    + inv H. exists [], (c :: s). simpl. now rewrite Nat.add_0_r.
    + apply IH in H. destruct H as (pre & post & -> & H).
      exists (c :: pre), post. simpl. now rewrite <- Nat.add_succ_comm.
Qed.

(** A match somewhere is enough for the search to report one. *)
Lemma search_from_complete ic r pre post : forall pos,
  match_at ic r (pos + length pre) post <> None ->
  search_from ic r pos (pre ++ post) <> None.
Proof.
  induction pre as [|c pre IH]; intros pos H; simpl in *.
  - rewrite Nat.add_0_r in H. destruct post; simpl;
      destruct (match_at ic r pos _); congruence.
  - destruct (match_at ic r pos (c :: pre ++ post)); [discriminate|].
    apply IH. now rewrite Nat.add_succ_comm.
Qed.

(** Greedy repetition followed by something that refuses every member of the
    class: the whole run is taken, and nothing is given back. *)
Lemma greedy_commit p k caps u x rest : forall pos,
  forallb p u = true -> p x = false ->
  (forall pos' c t, p c = true -> k (MState pos' (c :: t) caps) = None) ->
  greedy p k caps pos (u ++ x :: rest) =
  k (MState (pos + length u) (x :: rest) caps).
Proof.
  induction u as [|c u IH]; intros pos Hu Hx Hk; simpl.
  - now rewrite Hx, Nat.add_0_r.
  - simpl in Hu. apply andb_true_iff in Hu. destruct Hu as [Hc Hu].
    rewrite Hc, (IH (S pos) Hu Hx Hk), <- Nat.add_succ_comm.
    destruct (k (MState (S pos + length u) (x :: rest) caps)) eqn:E;
      [reflexivity|].
    now apply Hk.
Qed.

Lemma accepts_prefix_refl w s : accepts_prefix false w (w ++ s) = true.
Proof.
  induction w as [|c w IH]; simpl; [reflexivity|].
  now rewrite N.eqb_refl, IH.
Qed.

Lemma skipn_prefix (w s : str) : skipn (length w) (w ++ s) = s.
Proof. now rewrite skipn_app, Nat.sub_diag, skipn_all. Qed.

End ReFacts.
Import ReFacts.

(** ** The patterns of the module *)

(** Under IGNORECASE a literal below [A] (a digit, a slash, a dot, a hyphen)
    still accepts itself only. *)
Lemma uncased_only p c :
  p < 65 -> lit_accepts IGNORECASE p c = true -> c = p.
Proof.
  intros Hp. unfold lit_accepts, IGNORECASE, unicode_tolower, ignorecase_fixes.
  replace ((65 <=? p) && (p <=? 90)) with false
    by (symmetry; apply andb_false_iff; left; apply N.leb_gt; lia).
  replace (p =? 304) with false by (symmetry; apply N.eqb_neq; lia).
  replace (p =? 8490) with false by (symmetry; apply N.eqb_neq; lia).
  replace (p =? 105) with false by (symmetry; apply N.eqb_neq; lia).
  replace (p =? 115) with false by (symmetry; apply N.eqb_neq; lia).
  simpl. rewrite orb_false_r.
  destruct ((65 <=? c) && (c <=? 90)) eqn:E1.
  - apply andb_true_iff in E1. destruct E1 as [A B].
    apply N.leb_le in A. rewrite N.eqb_eq. lia.
  - destruct (c =? 304) eqn:E2; [rewrite N.eqb_eq; lia|].
    destruct (c =? 8490) eqn:E3; [rewrite N.eqb_eq; lia|].
    apply N.eqb_eq.
Qed.

Lemma group_1_of m w :
  m_groups m = 1%nat -> m_caps m = [(1%nat, w)] -> group m 1 = Ok (VStr w).
Proof. unfold group. intros -> ->. reflexivity. Qed.

Lemma lastindex_1_of m w : m_caps m = [(1%nat, w)] -> lastindex m = Some 1%nat.
Proof. unfold lastindex. now intros ->. Qed.

(** A match of a known-client pattern: the group holds the input's own
    spelling of the name, and a slash follows it. *)
Lemma product_match_at name pos s m :
  match_at IGNORECASE (product name) pos s = Some m ->
  exists w post, s = w ++ 47 :: post /\ accepts IGNORECASE (py name) w /\
                 group m 1 = Ok (VStr w).
Proof.
  intros H. apply match_at_sound in H. destruct H as (st' & Hm & G & C).
  unfold product in Hm, G. cbn [parts] in Hm.
  apply matches_Cat_inv in Hm. destruct Hm as (st1 & Hg & Hm).
  apply matches_Cat_inv in Hm. destruct Hm as (st2 & Hs & Hm).
  apply matches_Cat_inv in Hm. destruct Hm as (st3 & Hp & He).
  apply matches_Eps_inv in He. subst st'.
  apply matches_Grp_inv in Hg. destruct Hg as (st0 & w & Hl & E0 & _ & ->).
  apply matches_lits in Hl. destruct Hl as (u & Hu & Eu & Cu).
  apply matches_Chr_inv in Hs. destruct Hs as (c & Hc & E2 & _ & C2).
  apply matches_Plus_inv in Hp. destruct Hp as (d & ds & _ & E3 & C3).
  apply uncased_only in Hc; [|reflexivity]. subst c. simpl in *.
  assert (u = w) by (rewrite Eu in E0; now apply app_inv_tail in E0). subst u.
  exists w, (ms_rest st2). repeat split.
  - now rewrite E0, E2.
  - assumption.
  - apply group_1_of.
    + rewrite G. simpl. unfold lit. now rewrite ngroups_lits.
    + rewrite C, C3, C2. simpl. now rewrite Cu.
Qed.

Lemma product_search name ua m :
  re_search IGNORECASE (product name) ua = Some m ->
  exists pre w post, ua = pre ++ w ++ 47 :: post /\
                     accepts IGNORECASE (py name) w /\ group m 1 = Ok (VStr w).
Proof.
  intros H. apply search_from_sound in H. destruct H as (pre & s & -> & H).
  apply product_match_at in H. destruct H as (w & post & -> & Hw & G).
  exists pre, w, post. auto.
Qed.

(** The loop over the known clients, when it returns: some listed name was
    found in the input, up to letter case, and the input's spelling of it is
    the result. *)
Lemma known_client_sound ua r : forall names,
  known_client (List.map product names) ua = Some r ->
  exists name pre w post, In name names /\ ua = pre ++ w ++ 47 :: post /\
    accepts IGNORECASE (py name) w /\ r = Ok (VStr w).
Proof.
  induction names as [|n names IH]; simpl; intros H; [discriminate|].
  destruct (re_search IGNORECASE (product n) ua) as [m|] eqn:E.
  - inv H. apply product_search in E. destruct E as (pre & w & post & ? & ? & ?).
    exists n, pre, w, post. auto.
  - destruct (IH H) as (name & pre & w & post & ? & ? & ? & ?).
    exists name, pre, w, post. auto.
Qed.

(** A match of the generic pattern: the input starts with a letter, then
    name characters, then a slash; the group holds what stands before the
    slash. *)
Lemma generic_search ua m :
  re_search NOFLAG generic_product ua = Some m ->
  exists c run rest, ua = c :: run ++ 47 :: rest /\
    cset_has letter c = true /\ forallb (cset_has name_char) run = true /\
    group m 1 = Ok (VStr (c :: run)).
Proof.
  intros H. apply search_from_sound in H. destruct H as (pre & s & -> & H).
  apply match_at_sound in H. destruct H as (st' & Hm & G & C).
  unfold generic_product in Hm. cbn [parts] in Hm.
  apply matches_Cat_inv in Hm. destruct Hm as (st1 & Hb & Hm).
  apply matches_Cat_inv in Hm. destruct Hm as (st2 & Hg & Hm).
  apply matches_Cat_inv in Hm. destruct Hm as (st3 & Hs & He).
  apply matches_Eps_inv in He. subst st'.
  apply matches_Bol_inv in Hb. destruct Hb as [-> P0]. simpl in P0.
  destruct pre; [|simpl in P0; lia]. simpl.
  apply matches_Grp_inv in Hg. destruct Hg as (st0 & w & Hl & E0 & _ & ->).
  apply matches_Cat_inv in Hl. destruct Hl as (sta & Ha & Hr).
  apply matches_Cls_inv in Ha. destruct Ha as (c & Hc & Ea & _ & Ca).
  apply matches_Star_inv in Hr. destruct Hr as (run & Hrun & Er & Cr).
  apply matches_Chr_inv in Hs. destruct Hs as (x & Hx & Es & _ & Cs).
  simpl in *. apply N.eqb_eq in Hx. subst x.
  assert (w = c :: run).
  { rewrite Ea, Er in E0. change (c :: run ++ ms_rest st0) with ((c :: run) ++ ms_rest st0) in E0.
    now apply app_inv_tail in E0. }
  subst w. exists c, run, (ms_rest st3). repeat split; auto.
  - now rewrite Ea, Er, Es.
  - apply group_1_of; [now rewrite G|].
    rewrite C, Cs. simpl. now rewrite Cr, Ca.
Qed.

Lemma extract_client_name_cons c ua :
  extract_client_name (c :: ua) =
  match known_client client_patterns (c :: ua) with
  | Some r => r
  | None =>
      match re_search NOFLAG generic_product (c :: ua) with
      | Some m => group m 1
      | None => Ok (VStr (py "Browser"))
      end
  end.
Proof. reflexivity. Qed.

(** [extract_client_name] raises nothing and returns a string. *)
Lemma extract_client_name_str ua :
  exists s, extract_client_name ua = Ok (VStr s).
Proof.
  destruct ua as [|c ua]; [simpl; eauto|].
  rewrite extract_client_name_cons.
  destruct (known_client client_patterns (c :: ua)) as [r|] eqn:K.
  - apply known_client_sound with (names := client_names) in K.
    destruct K as (name & pre & w & post & _ & _ & _ & ->). eauto.
  - destruct (re_search NOFLAG generic_product (c :: ua)) as [m|] eqn:G; [|eauto].
    apply generic_search in G. destruct G as (x & run & rest & _ & _ & _ & ->). eauto.
Qed.

(** A route without a group: the path starts with the route string and no
    group is recorded. *)
Lemma literal_route_match w path m :
  re_match NOFLAG (parts [Bol; lit w]) path = Some m ->
  m_caps m = [] /\ exists rest, path = py w ++ rest.
Proof.
  intros H. apply match_at_sound in H. destruct H as (st' & Hm & _ & C).
  cbn [parts] in Hm.
  apply matches_Cat_inv in Hm. destruct Hm as (st1 & Hb & Hm).
  apply matches_Cat_inv in Hm. destruct Hm as (st2 & Hl & He).
  apply matches_Eps_inv in He. subst st'.
  apply matches_Bol_inv in Hb. destruct Hb as [-> _].
  apply matches_lits in Hl. destruct Hl as (u & Hu & Eu & Cu).
  apply accepts_exact in Hu. subst u. simpl in *.
  split; [congruence | eauto].
Qed.

(** A route with the model group: one group is recorded, and it holds the
    text between [/models/] and the first colon. *)
Lemma models_route_match pfx path m :
  re_match NOFLAG
    (parts [Bol; lit pfx; Opt (lit "beta"); lit "/models/";
            Grp 1 (Plus not_colon); Chr 58]) path = Some m ->
  m_groups m = 1%nat /\
  exists g, m_caps m = [(1%nat, g)] /\ g <> [] /\
    forallb (cset_has not_colon) g = true /\
    exists mid rest,
      path = py pfx ++ mid ++ py "/models/" ++ g ++ 58 :: rest /\
      (mid = [] \/ mid = py "beta").
Proof.
  intros H. apply match_at_sound in H. destruct H as (st' & Hm & G & C).
  cbn [parts] in Hm.
  apply matches_Cat_inv in Hm. destruct Hm as (st1 & Hb & Hm).
  apply matches_Cat_inv in Hm. destruct Hm as (st2 & Hp & Hm).
  apply matches_Cat_inv in Hm. destruct Hm as (st3 & Ho & Hm).
  apply matches_Cat_inv in Hm. destruct Hm as (st4 & Hs & Hm).
  apply matches_Cat_inv in Hm. destruct Hm as (st5 & Hg & Hm).
  apply matches_Cat_inv in Hm. destruct Hm as (st6 & Hc & He).
  apply matches_Eps_inv in He. subst st'.
  apply matches_Bol_inv in Hb. destruct Hb as [-> _].
  apply matches_lits in Hp. destruct Hp as (u1 & Hu1 & E1 & C1).
  apply accepts_exact in Hu1. subst u1.
  assert (Ho' : exists mid, ms_rest st2 = mid ++ ms_rest st3 /\
                            ms_caps st3 = ms_caps st2 /\
                            (mid = [] \/ mid = py "beta")).
  { inv Ho.
    - match goal with H : matches _ (lit _) _ _ |- _ =>
        apply matches_lits in H; destruct H as (u & Hu & Eu & Cu) end.
      apply accepts_exact in Hu. subst u. eauto.
    - exists []. auto. }
  destruct Ho' as (mid & E2 & C2 & Hmid).
  apply matches_lits in Hs. destruct Hs as (u3 & Hu3 & E3 & C3).
  apply accepts_exact in Hu3. subst u3.
  apply matches_Grp_inv in Hg. destruct Hg as (st0 & g & Hpl & E4 & _ & ->).
  apply matches_Plus_inv in Hpl. destruct Hpl as (c & u & Hcu & E5 & C5).
  assert (g = c :: u) by (rewrite E5 in E4; now apply app_inv_tail in E4).
  subst g.
  apply matches_Chr_inv in Hc. destruct Hc as (x & Hx & E6 & _ & C6).
  simpl in Hx. apply N.eqb_eq in Hx. subst x. simpl in E1, E6, C1, C6.
  split.
  - rewrite G. simpl. unfold lit. now rewrite !ngroups_lits.
  - exists (c :: u). repeat split.
    + rewrite C, C6, C5, C3, C2, C1. reflexivity.
    + discriminate.
    + assumption.
    + exists mid, (ms_rest st6). split; [|assumption].
      rewrite E1, E2, E3, E5, E6. reflexivity.
Qed.

(** What [model_of] gives on a match of a rule of the table. *)
Lemma model_of_route r mode path m :
  In (r, mode) API_PATTERNS ->
  re_match NOFLAG r path = Some m ->
  (mode = py "antigravity" \/ mode = py "geminicli") /\
  ((ngroups r = 1%nat /\
    exists g, group m 1 = Ok (VStr g) /\ model_of m = Ok (VStr g)) \/
   (ngroups r = 0%nat /\ model_of m = Ok (VStr (py "chat")))).
Proof.
  unfold API_PATTERNS. intros HIn H.
  repeat (destruct HIn as [HIn|HIn]; [inv HIn|]); try contradiction;
    (split; [auto|]);
    first [ left; apply models_route_match in H;
            destruct H as (G & g & C & _); split;
            [cbn [parts ngroups]; unfold lit; now rewrite !ngroups_lits
            |exists g; unfold model_of; rewrite (lastindex_1_of _ _ C);
             split; apply (group_1_of _ _ G C)]
          | right; apply literal_route_match in H; destruct H as (C & _); split;
            [cbn [parts ngroups]; unfold lit; now rewrite !ngroups_lits
            |unfold model_of, lastindex; now rewrite C] ].
Qed.

(** The loop returns at the first rule that matches. *)
Lemma parse_rules_first path ua r mode m : forall before after,
  Forall (no_match path) before ->
  re_match NOFLAG r path = Some m ->
  parse_rules (before ++ (r, mode) :: after) path ua =
  (model <- model_of m ;;
   client <- extract_client_name ua ;;
   Ok (Some (mode, model, client))).
Proof.
  induction before as [|[r' mode'] before IH]; intros after Hb Hm; simpl.
  - now rewrite Hm.
  - inv Hb. unfold no_match in H1. simpl in H1. rewrite H1. now apply IH.
Qed.

Lemma parse_rules_none path ua : forall rules,
  Forall (no_match path) rules -> parse_rules rules path ua = Ok None.
Proof.
  induction rules as [|[r mode] rules IH]; intros H; simpl; [reflexivity|].
  inv H. unfold no_match in H2. simpl in H2. rewrite H2. now apply IH.
Qed.

(** Either no rule matches, or there is a first one that does. *)
Lemma first_rule path : forall rules,
  Forall (no_match path) rules \/
  exists before r mode after m,
    rules = before ++ (r, mode) :: after /\
    Forall (no_match path) before /\ re_match NOFLAG r path = Some m.
Proof.
  induction rules as [|[r mode] rules IH]; [left; constructor|].
  destruct (re_match NOFLAG r path) as [m|] eqn:E.
  - right. exists [], r, mode, rules, m. repeat split; auto.
  - destruct IH as [IH|(before & r' & mode' & after & m & -> & Hb & Hm)].
    + left. constructor; assumption.
    + right. exists ((r, mode) :: before), r', mode', after, m.
      repeat split; auto.
Qed.

(** [parse_request_info] raises nothing: it returns [None] or a triple of
    strings. *)
Lemma parse_request_info_cases path ua :
  (Forall (no_match path) API_PATTERNS /\ parse_request_info path ua = Ok None) \/
  exists before r mode after m g c,
    API_PATTERNS = before ++ (r, mode) :: after /\
    Forall (no_match path) before /\ re_match NOFLAG r path = Some m /\
    model_of m = Ok (VStr g) /\ extract_client_name ua = Ok (VStr c) /\
    parse_request_info path ua = Ok (Some (mode, VStr g, VStr c)).
Proof.
  unfold parse_request_info.
  destruct (first_rule path API_PATTERNS)
    as [H|(before & r & mode & after & m & E & Hb & Hm)].
  - left. split; [assumption | now apply parse_rules_none].
  - right.
    assert (HIn : In (r, mode) API_PATTERNS) by (rewrite E; apply in_elt).
    destruct (model_of_route _ _ _ _ HIn Hm) as (_ & HM).
    assert (exists g, model_of m = Ok (VStr g)) as (g & Hg)
      by (destruct HM as [(_ & g & _ & ?)|(_ & ?)]; eauto).
    destruct (extract_client_name_str ua) as (c & Hc).
    exists before, r, mode, after, m, g, c. repeat split; auto.
    rewrite E, (parse_rules_first path ua r mode m before after Hb Hm), Hg, Hc. reflexivity.
Qed.

(** On ASCII input the folding of IGNORECASE is the ASCII one: an accepted
    code point and the literal have the same lower-case letter. *)
Lemma lit_accepts_ascii p c :
  c < 128 -> lit_accepts IGNORECASE p c = true ->
  unicode_tolower c = unicode_tolower p.
Proof.
  intros Hc H. unfold lit_accepts, IGNORECASE in H.
  apply orb_true_iff in H. destruct H as [H|H]; [now apply N.eqb_eq in H|].
  exfalso.
  assert (L : unicode_tolower c < 128).
  { unfold unicode_tolower.
    destruct ((65 <=? c) && (c <=? 90)) eqn:E.
    - apply andb_true_iff in E. destruct E as [_ B]. apply N.leb_le in B. lia.
    - destruct (c =? 304); [lia|]. destruct (c =? 8490); lia. }
  unfold ignorecase_fixes in H.
  destruct (unicode_tolower p =? 105);
    [|destruct (unicode_tolower p =? 115)]; simpl in H;
    try discriminate; rewrite orb_false_r in H; apply N.eqb_eq in H; lia.
Qed.

(** The known-client pattern matches wherever a spelling of the name is
    followed by a slash and a digit or dot. *)
Lemma product_match_complete name w d rest pos :
  accepts IGNORECASE (py name) w -> cset_has digit_dot d = true ->
  match_at IGNORECASE (product name) pos (w ++ 47 :: d :: rest) <> None.
Proof.
  intros Hw Hd. unfold match_at, product, lit. cbn [parts mt].
  rewrite mt_lits, (accepts_prefix_app _ _ _ _ Hw).
  rewrite <- (accepts_length _ _ _ Hw), skipn_app, Nat.sub_diag, skipn_all.
  cbn [app skipn one ms_rest ms_pos ms_caps].
  replace (lit_accepts IGNORECASE 47 47) with true by reflexivity.
  rewrite Hd. change (fun st' : mstate => Some st') with (@Some mstate).
  match goal with |- context [greedy ?p Some ?caps ?n ?s] =>
    destruct (greedy_Some p caps s n) as (st & -> & _) end.
  discriminate.
Qed.

Lemma known_client_none ua : forall patterns,
  Forall (fun p => re_search IGNORECASE p ua = None) patterns ->
  known_client patterns ua = None.
Proof.
  induction patterns as [|p ps IH]; intros H; simpl; [reflexivity|].
  inv H. rewrite H2. now apply IH.
Qed.

(** The loop returns at the first pattern that matches. *)
Lemma known_client_first ua p m : forall before after,
  Forall (fun q => re_search IGNORECASE q ua = None) before ->
  re_search IGNORECASE p ua = Some m ->
  known_client (before ++ p :: after) ua = Some (group m 1).
Proof.
  induction before as [|q before IH]; intros after Hb Hm; simpl.
  - now rewrite Hm.
  - inv Hb. rewrite H1. now apply IH.
Qed.

Lemma known_client_some ua : forall patterns,
  (exists p, In p patterns /\ re_search IGNORECASE p ua <> None) ->
  known_client patterns ua <> None.
Proof.
  induction patterns as [|q ps IH]; intros (p & HIn & Hp); simpl.
  - contradiction.
  - destruct (re_search IGNORECASE q ua) eqn:E; [discriminate|].
    apply IH. destruct HIn as [->|HIn]; [congruence | eauto].
Qed.

Lemma generic_search_token ua m :
  re_search NOFLAG generic_product ua = Some m -> leading_token ua.
Proof.
  intros H. apply generic_search in H.
  destruct H as (c & run & rest & -> & Hc & Hrun & _).
  exists (c :: run), rest. split; [|reflexivity].
  simpl. now rewrite Hc, Hrun.
Qed.

Lemma leading_token_letter c ua :
  leading_token (c :: ua) -> cset_has letter c = true.
Proof.
  intros (name & rest & Hn & E). destruct name as [|x run]; [discriminate|].
  simpl in Hn, E. inv E. now apply andb_true_iff in Hn.
Qed.

Lemma known_client_none_inv ua : forall patterns,
  known_client patterns ua = None ->
  Forall (fun p => re_search IGNORECASE p ua = None) patterns.
Proof.
  induction patterns as [|p ps IH]; simpl; intros H; [constructor|].
  destruct (re_search IGNORECASE p ua) eqn:E; [discriminate|].
  constructor; auto.
Qed.

(** No known client is spelled [Unknown], in any letter case. *)
Lemma unknown_is_no_client name :
  In name client_names -> ~ accepts IGNORECASE (py name) (py "Unknown").
Proof.
  intros HIn H.
  apply accepts_prefix_app with (s := []) in H.
  unfold client_names in HIn. simpl in HIn.
  repeat (destruct HIn as [<-|HIn]; [vm_compute in H; discriminate|]).
  contradiction.
Qed.

(** Without a slash in it, a User-Agent that is not empty gives [Browser]. *)
Lemma no_slash_browser ua :
  ua <> [] -> ~ In 47 ua -> extract_client_name ua = Ok (VStr (py "Browser")).
Proof.
  intros Hne Hs. destruct ua as [|c ua]; [congruence|].
  rewrite extract_client_name_cons.
  destruct (known_client client_patterns (c :: ua)) as [r|] eqn:K.
  - apply known_client_sound with (names := client_names) in K.
    destruct K as (name & pre & w & post & _ & E & _ & _).
    elim Hs. rewrite E. apply in_or_app. right. apply in_or_app. right. now left.
  - destruct (re_search NOFLAG generic_product (c :: ua)) as [m|] eqn:G;
      [|reflexivity].
    apply generic_search in G. destruct G as (x & run & rest & E & _).
    elim Hs. rewrite E. right. apply in_or_app. right. now left.
Qed.

(** ** The middleware, run *)

(** A run of [dispatch] follows the classification of the request. *)
Lemma run_dispatch (Response : Type) (next : Request -> result Response)
    (request : Request) :
  run next (dispatch Response request) =
  match parse_request_info (url_path request) (user_agent_of request) with
  | Ok (Some (mode, model, client)) =>
      ([Logged (emoji_of mode ++ py " " ++ format model ++ py " | " ++ format client);
        Forwarded request], next request)
  | Ok None => ([Forwarded request], next request)
  | Raise e => ([], Raise e)
  end.
Proof.
  unfold dispatch, user_agent_of, emoji_of. cbn [read_url lift bind].
  destruct (parse_request_info (url_path request)
              (headers_get (headers request) (py "user-agent") (py "")))
    as [[[[mode model] client]|]|e]; cbn -[py]; try reflexivity;
    destruct (next request); reflexivity.
Qed.

(** When reading the URL raises, the run ends there. *)
Lemma run_dispatch_unreadable (Response : Type)
    (next : Request -> result Response) e :
  run next (dispatch Response (Unreadable e)) = ([], Raise e).
Proof. reflexivity. Qed.


(** The model routes match every path made of the route prefix, an optional
    [beta], [/models/], a model name without colon, a colon, and anything. *)
Lemma models_route_complete pfx beta g suffix :
  beta = [] \/ beta = py "beta" ->
  g <> [] -> forallb (cset_has not_colon) g = true ->
  exists m,
    re_match NOFLAG
      (parts [Bol; lit pfx; Opt (lit "beta"); lit "/models/";
              Grp 1 (Plus not_colon); Chr 58])
      (py pfx ++ beta ++ py "/models/" ++ g ++ 58 :: suffix) = Some m /\
    model_of m = Ok (VStr g).
Proof.
  intros Hbeta Hg Hall. destruct g as [|c u]; [congruence|].
  simpl in Hall. apply andb_true_iff in Hall. destruct Hall as [Hc Hu].
  pose (R := parts [lit "/models/"; Grp 1 (Plus not_colon); Chr 58]).
  assert (K : forall pos0,
    mt NOFLAG R
       (MState pos0 (py "/models/" ++ (c :: u) ++ 58 :: suffix) []) Some =
    Some (MState (S (S (pos0 + 8 + length u))) suffix [(1%nat, c :: u)])).
  { intros pos0. unfold R, lit. cbn [parts mt].
    rewrite mt_lits, accepts_prefix_refl, skipn_prefix.
    cbn [app one ms_rest ms_pos ms_caps]. rewrite Hc.
    rewrite greedy_commit; auto.
    - cbn [ms_pos ms_rest ms_caps one lit_accepts NOFLAG].
      rewrite N.eqb_refl.
      replace (S (pos0 + length (py "/models/")) + length u - (pos0 + length (py "/models/")))%nat
        with (S (length u)) by lia.
      change (firstn (S (length u)) (c :: u ++ 58 :: suffix))
        with (c :: firstn (length u) (u ++ 58 :: suffix)).
      rewrite firstn_app, Nat.sub_diag, firstn_all. simpl firstn. rewrite app_nil_r.
      reflexivity.
    - intros pos' x t Hx. cbn [ms_pos ms_rest ms_caps one lit_accepts NOFLAG].
      destruct (x =? 58) eqn:E; [|reflexivity].
      apply N.eqb_eq in E. subst x. discriminate. }
  assert (M : exists st,
    mt NOFLAG (Cat Bol (Cat (lit pfx) (Cat (Opt (lit "beta")) R)))
      (MState 0 (py pfx ++ beta ++ py "/models/" ++ (c :: u) ++ 58 :: suffix) [])
      Some = Some st /\ ms_caps st = [(1%nat, c :: u)]).
  { cbn [mt ms_pos Nat.eqb]. unfold lit.
    rewrite mt_lits, accepts_prefix_refl, skipn_prefix.
    destruct Hbeta as [-> | ->].
    - cbn [app]. rewrite mt_lits.
      replace (accepts_prefix NOFLAG (py "beta") (py "/models/" ++ (c :: u) ++ 58 :: suffix))
        with false by reflexivity.
      rewrite K. eexists. split; reflexivity.
    - rewrite mt_lits, accepts_prefix_refl, skipn_prefix, K.
      eexists. split; reflexivity. }
  change (Cat Bol (Cat (lit pfx) (Cat (Opt (lit "beta")) R)))
    with (parts [Bol; lit pfx; Opt (lit "beta"); lit "/models/";
                 Grp 1 (Plus not_colon); Chr 58]) in M.
  destruct M as (st & E & C).
  unfold re_match, match_at. rewrite E. eexists. split; [reflexivity|].
  unfold model_of, lastindex, group. cbn [m_caps m_groups]. rewrite C.
  cbn [parts ngroups]. unfold lit. rewrite !ngroups_lits. reflexivity.
Qed.

Lemma classified_by_rule path before r mode after m g :
  API_PATTERNS = before ++ (r, mode) :: after ->
  Forall (no_match path) before ->
  re_match NOFLAG r path = Some m ->
  model_of m = Ok (VStr g) ->
  classified path mode g.
Proof.
  intros E Hb Hm Hg ua.
  destruct (extract_client_name_str ua) as (c & Hc). exists c.
  assert (P : parse_request_info path ua = Ok (Some (mode, VStr g, VStr c))).
  { unfold parse_request_info.
    rewrite E, (parse_rules_first path ua r mode m before after Hb Hm), Hg, Hc.
    reflexivity. }
  repeat split; auto.
  intros Response next hs Hua. rewrite run_dispatch. cbn [url_path].
  rewrite Hua, P. reflexivity.
Qed.


(** The examples of the docstring of [extract_client_name]. *)
Example docstring_examples :
  extract_client_name (py "Mozilla/5.0 ... CherryStudio/1.7.13 ...") =
    Ok (VStr (py "CherryStudio")) /\
  extract_client_name (py "Mozilla/5.0 ... Cursor/2.1.0 ...") =
    Ok (VStr (py "Cursor")) /\
  extract_client_name (py "python-requests/2.28.0") =
    Ok (VStr (py "python-requests")).
Proof. repeat split; vm_compute; reflexivity. Qed.

(** * The claims *)

(** ** C1 *)

(** C1, as stated, fails: the User-Agent [cherrystudio/1.7.13] is matched by
    the CherryStudio pattern, and the result is the input's spelling
    [cherrystudio], not the pattern's [CherryStudio]. *)
Lemma extract_client_name_keeps_input_case :
  re_search IGNORECASE (product "CherryStudio") (py "cherrystudio/1.7.13") <> None /\
  extract_client_name (py "cherrystudio/1.7.13") = Ok (VStr (py "cherrystudio")) /\
  extract_client_name (py "cherrystudio/1.7.13") <> Ok (VStr (py "CherryStudio")).
Proof.
  repeat split; vm_compute; discriminate || reflexivity.
Qed.

(** C1 (amended): for every User-Agent matched by one of the known-client
    patterns, the result is the text the group matched in the input: a part
    of the User-Agent, followed there by a slash, that spells one of the
    listed names up to the letter case folding of IGNORECASE.  For every
    User-Agent that contains [CherryStudio/1.7.13] in some letter casing the
    result spells [CherryStudio] in the casing of the input. *)
Theorem extract_client_name_known :
  (forall ua,
     (exists p, In p client_patterns /\ re_search IGNORECASE p ua <> None) ->
     exists name pre w post,
       In name client_names /\ ua = pre ++ w ++ 47 :: post /\
       accepts IGNORECASE (py name) w /\
       extract_client_name ua = Ok (VStr w)) /\
  (forall pre w post,
     accepts IGNORECASE (py "CherryStudio/1.7.13") w ->
     exists g, accepts IGNORECASE (py "CherryStudio") g /\
               extract_client_name (pre ++ w ++ post) = Ok (VStr g)).
Proof.
  split.
  - intros ua H. apply known_client_some in H.
    destruct ua as [|c ua]; [simpl in H; congruence|].
    rewrite extract_client_name_cons.
    destruct (known_client client_patterns (c :: ua)) as [r|] eqn:K; [|congruence].
    apply known_client_sound with (names := client_names) in K.
    destruct K as (name & pre & w & post & ? & ? & ? & ->).
    exists name, pre, w, post. auto.
  - intros pre w post Hw.
    change (py "CherryStudio/1.7.13") with (py "CherryStudio" ++ [47; 49] ++ py ".7.13") in Hw.
    apply Forall2_app_inv_l in Hw. destruct Hw as (g & w2 & Hg & Hw2 & ->).
    apply Forall2_app_inv_l in Hw2. destruct Hw2 as (sd & w3 & Hsd & _ & ->).
    inv Hsd. inv H3. inv H5.
    apply uncased_only in H1; [|reflexivity]. apply uncased_only in H2; [|reflexivity].
    subst.
    assert (M : re_search IGNORECASE (product "CherryStudio")
                  (pre ++ g ++ [47; 49] ++ w3 ++ post) <> None).
    { apply search_from_complete.
      apply (product_match_complete "CherryStudio" g 49 (w3 ++ post) _ Hg).
      reflexivity. }
    destruct (re_search IGNORECASE (product "CherryStudio")
                (pre ++ g ++ [47; 49] ++ w3 ++ post)) as [m|] eqn:E; [|congruence].
    pose proof (known_client_first _ _ _ [] (List.map product (List.tl client_names))
                  (Forall_nil _) E) as K.
    change ([] ++ product "CherryStudio" :: List.map product (List.tl client_names))
      with client_patterns in K.
    apply product_search in E. destruct E as (pre' & g' & post' & E & Hg' & G).
    exists g'. split; [assumption|].
    rewrite <- !app_assoc.
    destruct (pre ++ g ++ [47; 49] ++ w3 ++ post) as [|c l] eqn:El.
    + destruct pre', g'; discriminate.
    + rewrite extract_client_name_cons, K. exact G.
Qed.

(** The amended C1 at a concrete User-Agent. *)
Lemma extract_client_name_known_witness :
  let ua := py "Mozilla/5.0 cherrystudio/1.7.13" in
  (exists p, In p client_patterns /\ re_search IGNORECASE p ua <> None) /\
  exists name pre w post,
    In name client_names /\ ua = pre ++ w ++ 47 :: post /\
    accepts IGNORECASE (py name) w /\
    extract_client_name ua = Ok (VStr w).
Proof.
  intros ua.
  assert (H : exists p, In p client_patterns /\ re_search IGNORECASE p ua <> None).
  { exists (product "CherryStudio"). split.
    - simpl. auto.
    - vm_compute. discriminate. }
  split; [exact H|].
  exact (proj1 extract_client_name_known ua H).
Defined.

(** ** C2 *)

Ltac classify ua :=
  let c := fresh "c" in
  let Hc := fresh "Hc" in
  destruct (extract_client_name_str ua) as (c & Hc); exists c;
  split; [exact Hc|];
  unfold parse_request_info, API_PATTERNS; cbn [parse_rules]; rewrite Hc;
  vm_compute; reflexivity.

(** C2: the two paths named by the specification are classified as it says,
    and in general the model is the first capture of the first matching rule
    when that rule has a capturing group and the literal [chat] when it has
    none. *)
Theorem parse_request_info_model :
  (forall ua, exists client,
     extract_client_name ua = Ok (VStr client) /\
     parse_request_info
       (py "/antigravity/v1beta/models/gemini-3-flash:streamGenerateContent") ua =
     Ok (Some (py "antigravity", VStr (py "gemini-3-flash"), VStr client))) /\
  (forall ua, exists client,
     extract_client_name ua = Ok (VStr client) /\
     parse_request_info (py "/v1/chat/completions") ua =
     Ok (Some (py "geminicli", VStr (py "chat"), VStr client))) /\
  (forall path ua mode model client,
     parse_request_info path ua = Ok (Some (mode, model, client)) ->
     exists before r after m,
       API_PATTERNS = before ++ (r, mode) :: after /\
       Forall (no_match path) before /\
       re_match NOFLAG r path = Some m /\
       (ngroups r <> 0%nat -> group m 1 = Ok model) /\
       (ngroups r = 0%nat -> model = VStr (py "chat"))).
Proof.
  split; [|split].
  - intros ua. classify ua.
  - intros ua. classify ua.
  - intros path ua mode model client H.
    destruct (parse_request_info_cases path ua)
      as [[_ E]|(before & r & mode' & after & m & g & c & E & Hb & Hm & Hg & Hc & Hp)];
      [congruence|].
    rewrite Hp in H. inv H.
    exists before, r, after, m. repeat split; auto.
    + intros G.
      assert (HIn : In (r, mode) API_PATTERNS) by (rewrite E; apply in_elt).
      destruct (model_of_route _ _ _ _ HIn Hm) as (_ & [(_ & g' & G1 & G2)|(G0 & _)]);
        congruence.
    + intros G.
      assert (HIn : In (r, mode) API_PATTERNS) by (rewrite E; apply in_elt).
      destruct (model_of_route _ _ _ _ HIn Hm) as (_ & [(G1 & _)|(_ & G2)]);
        congruence.
Qed.

(** C2 at the second path of the specification, asked for by curl. *)
Lemma parse_request_info_model_witness :
  let path := py "/v1/chat/completions" in
  let model := VStr (py "chat") in
  parse_request_info path (py "curl/8.0") =
    Ok (Some (py "geminicli", model, VStr (py "curl"))) /\
  exists before r after m,
    API_PATTERNS = before ++ (r, py "geminicli") :: after /\
    Forall (no_match path) before /\
    re_match NOFLAG r path = Some m /\
    (ngroups r <> 0%nat -> group m 1 = Ok model) /\
    (ngroups r = 0%nat -> model = VStr (py "chat")).
Proof.
  intros path model.
  assert (H : parse_request_info path (py "curl/8.0") =
              Ok (Some (py "geminicli", model, VStr (py "curl"))))
    by (vm_compute; reflexivity).
  split; [exact H|].
  exact (proj2 (proj2 parse_request_info_model) _ _ _ _ _ H).
Defined.

(** ** C3 *)

(** C3: when no rule of the table matches the path, the classification is
    [None] whatever the User-Agent, and a run of the middleware hands no line
    to [log.info]. *)
Theorem unmatched_is_silent (Response : Type) (next : Request -> result Response)
    (request : Request) :
  Forall (no_match (url_path request)) API_PATTERNS ->
  (forall ua, parse_request_info (url_path request) ua = Ok None) /\
  logged (fst (run next (dispatch Response request))) = [].
Proof.
  intros H.
  assert (P : forall ua, parse_request_info (url_path request) ua = Ok None)
    by (intros ua; now apply parse_rules_none).
  split; [exact P|].
  rewrite run_dispatch, P. reflexivity.
Qed.

(** C3 at a health-check request. *)
Lemma unmatched_is_silent_witness :
  let request := MkRequest (py "/health") [(py "user-agent", py "curl/8.0")] in
  Forall (no_match (url_path request)) API_PATTERNS /\
  (forall ua, parse_request_info (url_path request) ua = Ok None) /\
  logged (fst (run (fun _ => Ok tt) (dispatch unit request))) = [].
Proof.
  intros request.
  assert (H : Forall (no_match (url_path request)) API_PATTERNS)
    by (repeat constructor; vm_compute; reflexivity).
  split; [exact H|].
  apply (unmatched_is_silent unit (fun _ => Ok tt) request H).
Defined.

(** ** C4 *)

(** C4: the empty User-Agent gives [Unknown]; a User-Agent that is not empty,
    that no known-client pattern matches and that opens with no
    ProductName/Version token gives [Browser], as [SomeWeirdClient] does;
    the result is always a string. *)
Theorem extract_client_name_sentinels :
  extract_client_name [] = Ok (VStr (py "Unknown")) /\
  (forall ua,
     ua <> [] -> no_known_client ua -> ~ leading_token ua ->
     extract_client_name ua = Ok (VStr (py "Browser"))) /\
  extract_client_name (py "SomeWeirdClient") = Ok (VStr (py "Browser")) /\
  (forall ua, exists s, extract_client_name ua = Ok (VStr s)).
Proof.
  split; [reflexivity|split; [|split]].
  - intros ua Hne Hk Ht. destruct ua as [|c ua]; [congruence|].
    rewrite extract_client_name_cons, (known_client_none _ _ Hk).
    destruct (re_search NOFLAG generic_product (c :: ua)) as [m|] eqn:G;
      [|reflexivity].
    elim Ht. exact (generic_search_token _ _ G).
  - vm_compute. reflexivity.
  - apply extract_client_name_str.
Qed.

(** C4 at a User-Agent that starts with a digit. *)
Lemma extract_client_name_sentinels_witness :
  let ua := py "7zip 1.0" in
  ua <> [] /\ no_known_client ua /\ ~ leading_token ua /\
  extract_client_name ua = Ok (VStr (py "Browser")).
Proof.
  intros ua.
  assert (H1 : ua <> []) by discriminate.
  assert (H2 : no_known_client ua) by (repeat constructor).
  assert (H3 : ~ leading_token ua).
  { intros H. apply leading_token_letter in H. vm_compute in H. discriminate. }
  split; [exact H1|]. split; [exact H2|]. split; [exact H3|].
  exact (proj1 (proj2 extract_client_name_sentinels) ua H1 H2 H3).
Defined.

(** ** C5 *)

(** C5: both tables are scanned in the order written and the first match
    decides.  A rule that matches after rules that do not gives the mode and
    the model of the classification; a known-client pattern that matches after
    patterns that do not gives the client, whatever the generic pattern would
    find; [python-requests/2.28.0] is named by the known-client list. *)
Theorem first_match_wins :
  (forall path ua before r mode after m,
     API_PATTERNS = before ++ (r, mode) :: after ->
     Forall (no_match path) before ->
     re_match NOFLAG r path = Some m ->
     exists model client,
       model_of m = Ok model /\ extract_client_name ua = Ok client /\
       parse_request_info path ua = Ok (Some (mode, model, client))) /\
  (forall ua before p after m,
     client_patterns = before ++ p :: after ->
     Forall (fun q => re_search IGNORECASE q ua = None) before ->
     re_search IGNORECASE p ua = Some m ->
     extract_client_name ua = group m 1) /\
  known_client client_patterns (py "python-requests/2.28.0") =
    Some (Ok (VStr (py "python-requests"))) /\
  extract_client_name (py "python-requests/2.28.0") =
    Ok (VStr (py "python-requests")).
Proof.
  split; [|split; [|split]].
  - intros path ua before r mode after m E Hb Hm.
    assert (HIn : In (r, mode) API_PATTERNS) by (rewrite E; apply in_elt).
    destruct (model_of_route _ _ _ _ HIn Hm) as (_ & HM).
    assert (exists g, model_of m = Ok (VStr g)) as (g & Hg)
      by (destruct HM as [(_ & g & _ & ?)|(_ & ?)]; eauto).
    destruct (extract_client_name_str ua) as (c & Hc).
    exists (VStr g), (VStr c). repeat split; auto.
    unfold parse_request_info.
    rewrite E, (parse_rules_first path ua r mode m before after Hb Hm), Hg, Hc.
    reflexivity.
  - intros ua before p after m E Hb Hm.
    assert (HIn : In p client_patterns) by (rewrite E; apply in_elt).
    change client_patterns with (List.map product client_names) in HIn.
    apply in_map_iff in HIn.
    destruct HIn as (name & <- & _).
    destruct (product_search _ _ _ Hm) as (pre & w & post & Eua & _ & _).
    destruct ua as [|c ua]; [destruct pre, w; discriminate|].
    rewrite extract_client_name_cons, E.
    now rewrite (known_client_first _ _ _ before after Hb Hm).
  - vm_compute. reflexivity.
  - vm_compute. reflexivity.
Qed.

(** C5 at a request whose User-Agent names [curl] first and [Cursor] second:
    the last rule of the route table is the first to match the path, and
    [Cursor], which comes before [curl] in the list, is the client. *)
Lemma first_match_wins_witness :
  (exists model client,
     parse_request_info (py "/v1/messages") (py "curl/8.0 Cursor/2.1.0") =
     Ok (Some (py "geminicli", model, client))) /\
  extract_client_name (py "curl/8.0 Cursor/2.1.0") = Ok (VStr (py "Cursor")).
Proof.
  split.
  - assert (S : exists m,
              re_match NOFLAG (parts [Bol; lit "/v1/messages"]) (py "/v1/messages") = Some m)
      by (eexists; vm_compute; reflexivity).
    destruct S as (m & Hm).
    destruct (proj1 first_match_wins (py "/v1/messages") (py "curl/8.0 Cursor/2.1.0")
                (firstn 5 API_PATTERNS) (parts [Bol; lit "/v1/messages"])
                (py "geminicli") [] m)
      as (model & client & _ & _ & P).
    + reflexivity.
    + repeat constructor.
    + exact Hm.
    + exists model, client. exact P.
  - assert (S : exists m,
              re_search IGNORECASE (product "Cursor") (py "curl/8.0 Cursor/2.1.0") = Some m /\
              group m 1 = Ok (VStr (py "Cursor")))
      by (eexists; split; vm_compute; reflexivity).
    destruct S as (m & Hm & G).
    rewrite <- G.
    apply (proj1 (proj2 first_match_wins)) with
      (before := [product "CherryStudio"])
      (p := product "Cursor")
      (after := List.map product (List.tl (List.tl client_names))).
    + reflexivity.
    + repeat constructor.
    + exact Hm.
Defined.

(** ** C6 *)




(** ** C7 *)



(** ** C8 *)

(** C8: on every path and every User-Agent, of any length,
    [extract_client_name] returns a string and [parse_request_info] returns
    [None] or a triple of strings; neither raises. *)
Theorem never_raises path ua :
  (exists s, extract_client_name ua = Ok (VStr s)) /\
  (parse_request_info path ua = Ok None \/
   exists mode g c, parse_request_info path ua = Ok (Some (mode, VStr g, VStr c))).
Proof.
  split; [apply extract_client_name_str|].
  destruct (parse_request_info_cases path ua)
    as [[_ E]|(before & r & mode & after & m & g & c & _ & _ & _ & _ & _ & E)];
    [left | right]; eauto.
Qed.

(** ** C9 *)

Ltac by_rule n :=
  eapply classified_by_rule with
    (before := firstn n API_PATTERNS) (after := skipn (S n) API_PATTERNS);
  [ reflexivity
  | repeat constructor
  | lazy; reflexivity
  | lazy; reflexivity ].

Ltac by_models_rule n pfx beta g suffix Hg Hall :=
  let m := fresh "m" in
  let Hm := fresh "Hm" in
  let HM := fresh "HM" in
  destruct (models_route_complete pfx beta g suffix) as (m & Hm & HM);
  [ auto | exact Hg | exact Hall | ];
  eapply classified_by_rule with
    (before := firstn n API_PATTERNS) (after := skipn (S n) API_PATTERNS);
  [ reflexivity
  | repeat constructor
  | exact Hm
  | exact HM ].

(** C9: the route patterns are tied to the start of the path and to nothing
    after it.  Every path that starts with one of the four route strings is
    classified, with model [chat]; every path that starts with a model route
    up to its colon is classified, with the model named there; so are
    [/v1/chat/completions/anything] and [/v1/messagesExtra], and each such
    request is logged. *)
Theorem routes_match_by_prefix :
  (forall suffix,
     classified (py "/antigravity/v1/chat/completions" ++ suffix)
       (py "antigravity") (py "chat") /\
     classified (py "/antigravity/v1/messages" ++ suffix)
       (py "antigravity") (py "chat") /\
     classified (py "/v1/chat/completions" ++ suffix)
       (py "geminicli") (py "chat") /\
     classified (py "/v1/messages" ++ suffix)
       (py "geminicli") (py "chat")) /\
  (forall g suffix,
     g <> [] -> forallb (cset_has not_colon) g = true ->
     classified (py "/antigravity/v1/models/" ++ g ++ 58 :: suffix)
       (py "antigravity") g /\
     classified (py "/antigravity/v1beta/models/" ++ g ++ 58 :: suffix)
       (py "antigravity") g /\
     classified (py "/v1/models/" ++ g ++ 58 :: suffix) (py "geminicli") g /\
     classified (py "/v1beta/models/" ++ g ++ 58 :: suffix) (py "geminicli") g) /\
  classified (py "/v1/chat/completions/anything") (py "geminicli") (py "chat") /\
  classified (py "/v1/messagesExtra") (py "geminicli") (py "chat").
Proof.
  split; [|split; [|split]].
  - intros suffix. repeat split.
    + by_rule 1%nat.
    + by_rule 2%nat.
    + by_rule 4%nat.
    + by_rule 5%nat.
  - intros g suffix Hg Hall. repeat split.
    + by_models_rule 0%nat "/antigravity/v1"%string (@nil N) g suffix Hg Hall.
    + by_models_rule 0%nat "/antigravity/v1"%string (py "beta") g suffix Hg Hall.
    + by_models_rule 3%nat "/v1"%string (@nil N) g suffix Hg Hall.
    + by_models_rule 3%nat "/v1"%string (py "beta") g suffix Hg Hall.
  - by_rule 4%nat.
  - by_rule 5%nat.
Qed.

(** C9 at a streaming path with more after the colon. *)
Lemma routes_match_by_prefix_witness :
  let g := py "gemini-3-flash" in
  let suffix := py "streamGenerateContent:x" in
  g <> [] /\ forallb (cset_has not_colon) g = true /\
  classified (py "/v1beta/models/" ++ g ++ 58 :: suffix) (py "geminicli") g.
Proof.
  intros g suffix.
  assert (H1 : g <> []) by discriminate.
  assert (H2 : forallb (cset_has not_colon) g = true) by reflexivity.
  split; [exact H1|]. split; [exact H2|].
  exact (proj2 (proj2 (proj2
           (proj1 (proj2 routes_match_by_prefix) g suffix H1 H2)))).
Defined.

(** ** C10 *)

(** C10, as stated, fails: [Unknown/1.0] is not the empty User-Agent and the
    result is [Unknown] all the same, through the generic pattern. *)
Lemma unknown_from_nonempty :
  py "Unknown/1.0" <> [] /\
  extract_client_name (py "Unknown/1.0") = Ok (VStr (py "Unknown")).
Proof. split; [discriminate | vm_compute; reflexivity]. Qed.

(** C10 (amended): the result is [Unknown] exactly when the User-Agent is
    empty, or when no known-client pattern matches it and it starts with
    [Unknown/].  A User-Agent that is not empty and holds no slash, such as
    one of whitespace only, gives [Browser]; so does one that no known-client
    pattern matches and whose first character is not a letter, such as
    [1client/2.0]. *)
Theorem unknown_and_browser :
  (forall ua,
     extract_client_name ua = Ok (VStr (py "Unknown")) <->
     ua = [] \/ (no_known_client ua /\ exists rest, ua = py "Unknown/" ++ rest)) /\
  (forall ua,
     ua <> [] -> ~ In 47 ua ->
     extract_client_name ua = Ok (VStr (py "Browser"))) /\
  (forall c ua,
     cset_has letter c = false -> no_known_client (c :: ua) ->
     extract_client_name (c :: ua) = Ok (VStr (py "Browser"))) /\
  extract_client_name (py " ") = Ok (VStr (py "Browser")) /\
  extract_client_name (py "1client/2.0") = Ok (VStr (py "Browser")).
Proof.
  split; [|split; [|split; [|split]]].
  - intros ua. split.
    + intros H. destruct ua as [|c ua]; [now left|]. right.
      rewrite extract_client_name_cons in H.
      destruct (known_client client_patterns (c :: ua)) as [r|] eqn:K.
      * apply known_client_sound with (names := client_names) in K.
        destruct K as (name & pre & w & post & HIn & _ & Hw & ->).
        inv H. elim (unknown_is_no_client name HIn Hw).
      * split; [now apply known_client_none_inv|].
        destruct (re_search NOFLAG generic_product (c :: ua)) as [m|] eqn:G;
          [|vm_compute in H; discriminate].
        apply generic_search in G. destruct G as (x & run & rest & E & _ & _ & G).
        rewrite G in H. inv H. exists rest. rewrite E. reflexivity.
    + intros [->|(Hk & rest & ->)]; [reflexivity|].
      pose proof (known_client_none _ _ Hk) as K.
      change (py "Unknown/" ++ rest) with (85 :: (py "nknown/" ++ rest)) in K |- *.
      rewrite extract_client_name_cons, K.
      vm_compute. reflexivity.
  - exact no_slash_browser.
  - intros c ua Hc Hk.
    rewrite extract_client_name_cons, (known_client_none _ _ Hk).
    destruct (re_search NOFLAG generic_product (c :: ua)) as [m|] eqn:G;
      [|reflexivity].
    apply generic_search_token, leading_token_letter in G. congruence.
  - vm_compute. reflexivity.
  - vm_compute. reflexivity.
Qed.

(** The amended C10 at a User-Agent of three spaces. *)
Lemma unknown_and_browser_witness :
  let ua := py "   " in
  ua <> [] /\ ~ In 47 ua /\
  extract_client_name ua = Ok (VStr (py "Browser")).
Proof.
  intros ua.
  assert (H1 : ua <> []) by discriminate.
  assert (H2 : ~ In 47 ua) by (vm_compute; intuition discriminate).
  split; [exact H1|]. split; [exact H2|].
  exact (proj1 (proj2 unknown_and_browser) ua H1 H2).
Defined.

(** * Further properties of the module *)

(** ** The known-client patterns *)

(** A match of a known-client pattern, with the version: after the slash
    comes at least one digit or dot. *)
Lemma product_match_at_version name pos s m :
  match_at IGNORECASE (product name) pos s = Some m ->
  exists w d post, s = w ++ 47 :: d :: post /\
    accepts IGNORECASE (py name) w /\ cset_has digit_dot d = true.
Proof.
  intros H. apply match_at_sound in H. destruct H as (st' & Hm & _ & _).
  unfold product in Hm. cbn [parts] in Hm.
  apply matches_Cat_inv in Hm. destruct Hm as (st1 & Hg & Hm).
  apply matches_Cat_inv in Hm. destruct Hm as (st2 & Hs & Hm).
  apply matches_Cat_inv in Hm. destruct Hm as (st3 & Hp & He).
  apply matches_Grp_inv in Hg. destruct Hg as (st0 & w & Hl & E0 & _ & ->).
  apply matches_lits in Hl. destruct Hl as (u & Hu & Eu & _).
  apply matches_Chr_inv in Hs. destruct Hs as (c & Hc & E2 & _ & _).
  apply matches_Plus_inv in Hp. destruct Hp as (d & ds & Hd & E3 & _).
  apply uncased_only in Hc; [|reflexivity]. subst c. simpl in *.
  assert (u = w) by (rewrite Eu in E0; now apply app_inv_tail in E0). subst u.
  apply andb_true_iff in Hd. destruct Hd as [Hd _].
  exists w, d, (ds ++ ms_rest st3). repeat split; auto.
  now rewrite E0, E2, E3.
Qed.

(** X1: a known-client pattern finds a match in a User-Agent exactly when the
    User-Agent holds, somewhere, a spelling of the name in any letter case,
    then a slash, then a digit or a dot. *)
Theorem product_search_iff name ua :
  re_search IGNORECASE (product name) ua <> None <->
  exists pre w d post,
    ua = pre ++ w ++ 47 :: d :: post /\
    accepts IGNORECASE (py name) w /\ cset_has digit_dot d = true.
Proof.
  split.
  - intros H.
    destruct (re_search IGNORECASE (product name) ua) as [m|] eqn:E; [|congruence].
    apply search_from_sound in E. destruct E as (pre & s & -> & E).
    apply product_match_at_version in E. destruct E as (w & d & post & -> & Hw & Hd).
    exists pre, w, d, post. auto.
  - intros (pre & w & d & post & -> & Hw & Hd).
    apply search_from_complete. now apply product_match_complete.
Qed.



(** ** The generic fallback *)

Lemma search_from_first ic r pos s m :
  match_at ic r pos s = Some m -> search_from ic r pos s = Some m.
Proof. intros H. destruct s; simpl; now rewrite H. Qed.

Lemma name_char_not_slash c : cset_has name_char c = true -> c <> 47.
Proof. intros H ->. discriminate. Qed.

(** The generic pattern on a User-Agent that opens with a product name and a
    slash: it matches, and the group is that name. *)
Lemma generic_search_complete name rest :
  product_name name = true ->
  exists m, re_search NOFLAG generic_product (name ++ 47 :: rest) = Some m /\
            group m 1 = Ok (VStr name).
Proof.
  intros Hn. destruct name as [|c run]; [discriminate|].
  simpl in Hn. apply andb_true_iff in Hn. destruct Hn as [Hc Hrun].
  assert (M : mt NOFLAG generic_product (MState 0 ((c :: run) ++ 47 :: rest) []) Some =
              Some (MState (S (S (length run))) rest [(1%nat, c :: run)])).
  { unfold generic_product. cbn [parts mt ms_pos Nat.eqb app one ms_rest ms_caps].
    rewrite Hc.
    rewrite greedy_commit; auto.
    - cbn [ms_pos ms_rest ms_caps one lit_accepts NOFLAG].
      rewrite N.eqb_refl.
      replace (1 + length run - 0)%nat with (S (length run)) by lia.
      change (firstn (S (length run)) (c :: run ++ 47 :: rest))
        with (c :: firstn (length run) (run ++ 47 :: rest)).
      rewrite firstn_app, Nat.sub_diag, firstn_all. simpl firstn.
      rewrite app_nil_r. reflexivity.
    - intros pos' x t Hx. cbn [ms_pos ms_rest ms_caps one lit_accepts NOFLAG].
      destruct (x =? 47) eqn:E; [|reflexivity].
      apply N.eqb_eq in E. now apply name_char_not_slash in Hx. }
  eexists. split.
  - apply search_from_first. unfold match_at. rewrite M. reflexivity.
  - reflexivity.
Qed.

(** X3: when no known-client pattern matches, a User-Agent that opens with a
    product name and a slash is named by that product name, exactly as the
    input spells it; what follows the slash plays no part. *)
Theorem generic_fallback_names name rest :
  product_name name = true ->
  no_known_client (name ++ 47 :: rest) ->
  extract_client_name (name ++ 47 :: rest) = Ok (VStr name).
Proof.
  intros Hn Hk.
  destruct (generic_search_complete name rest Hn) as (m & Hm & G).
  pose proof (known_client_none _ _ Hk) as K.
  destruct (name ++ 47 :: rest) as [|c ua] eqn:E.
  - destruct name; discriminate.
  - now rewrite extract_client_name_cons, K, Hm.
Qed.

(** X3 at a client of its own making, with an empty version. *)
Lemma generic_fallback_names_witness :
  product_name (py "My_Tool-2") = true /\
  no_known_client (py "My_Tool-2" ++ 47 :: py "") /\
  extract_client_name (py "My_Tool-2" ++ 47 :: py "") = Ok (VStr (py "My_Tool-2")).
Proof.
  assert (H1 : product_name (py "My_Tool-2") = true) by reflexivity.
  assert (H2 : no_known_client (py "My_Tool-2" ++ 47 :: py ""))
    by (repeat constructor).
  split; [exact H1|]. split; [exact H2|].
  exact (generic_fallback_names (py "My_Tool-2") (py "") H1 H2).
Defined.

(** ** The shape of a client name *)

Lemma name_char_spec c :
  cset_has name_char c = true <->
  (65 <= c <= 90) \/ (97 <= c <= 122) \/ (48 <= c <= 57) \/ c = 95 \/ c = 45.
Proof.
  unfold cset_has, name_char. cbn [negated items existsb item_has xorb].
  rewrite !orb_true_iff, !andb_true_iff, !N.leb_le, !N.eqb_eq.
  intuition discriminate.
Qed.

Lemma letter_name_char c :
  cset_has letter c = true -> cset_has name_char c = true.
Proof.
  intros H. apply name_char_spec.
  unfold cset_has, letter in H. cbn [negated items existsb item_has xorb] in H.
  rewrite !orb_true_iff, !andb_true_iff, !N.leb_le in H.
  intuition discriminate.
Qed.

Lemma unicode_tolower_inv c :
  unicode_tolower c = c \/ (65 <= c <= 90 /\ unicode_tolower c = c + 32) \/
  (c = 304 /\ unicode_tolower c = 105) \/ (c = 8490 /\ unicode_tolower c = 107).
Proof.
  unfold unicode_tolower.
  destruct ((65 <=? c) && (c <=? 90)) eqn:E.
  - apply andb_true_iff in E. destruct E as [A B].
    apply N.leb_le in A. apply N.leb_le in B. auto.
  - destruct (N.eqb_spec c 304); [auto|].
    destruct (N.eqb_spec c 8490); auto.
Qed.

Lemma lit_accepts_inv p c :
  lit_accepts IGNORECASE p c = true ->
  unicode_tolower c = unicode_tolower p \/
  (unicode_tolower p = 105 /\ unicode_tolower c = 305) \/
  (unicode_tolower p = 115 /\ unicode_tolower c = 383).
Proof.
  unfold lit_accepts, IGNORECASE, ignorecase_fixes. intros H.
  apply orb_true_iff in H. destruct H as [H|H]; [left; now apply N.eqb_eq|].
  destruct (N.eqb_spec (unicode_tolower p) 105).
  - simpl in H. rewrite orb_false_r in H. apply N.eqb_eq in H. auto.
  - destruct (N.eqb_spec (unicode_tolower p) 115); [|discriminate].
    simpl in H. rewrite orb_false_r in H. apply N.eqb_eq in H. auto.
Qed.

(** What a literal of a client name accepts under IGNORECASE is a client
    character. *)
Lemma name_literal_accepts p c :
  name_literal p = true -> lit_accepts IGNORECASE p c = true -> client_char c.
Proof.
  unfold name_literal. rewrite !andb_true_iff, !negb_true_iff, !N.eqb_neq.
  intros [[Hp K1] K2] H. apply name_char_spec in Hp.
  apply lit_accepts_inv in H. unfold client_char. rewrite name_char_spec.
  destruct (unicode_tolower_inv p) as [P|[[P1 P]|[[P1 P]|[P1 P]]]];
    destruct (unicode_tolower_inv c) as [C|[[C1 C]|[[C1 C]|[C1 C]]]];
    rewrite P, C in H; lia.
Qed.

Lemma accepts_client_chars w u :
  forallb name_literal w = true -> accepts IGNORECASE w u ->
  Forall client_char u.
Proof.
  intros Hw H. induction H as [|p c w u Hc _ IH]; [constructor|].
  simpl in Hw. apply andb_true_iff in Hw. destruct Hw as [Hp Hw].
  constructor; [exact (name_literal_accepts p c Hp Hc) | now apply IH].
Qed.

Lemma client_names_literals name :
  In name client_names ->
  forallb name_literal (py name) = true /\ py name <> [].
Proof.
  unfold client_names. simpl. intros H.
  repeat (destruct H as [<-|H]; [split; [reflexivity | discriminate]|]).
  contradiction.
Qed.

Lemma client_char_plain c :
  client_char c -> c <> 32 /\ c <> 47 /\ c <> 124 /\ c <> 10.
Proof. unfold client_char. rewrite name_char_spec. lia. Qed.

Lemma client_name_chars ua :
  exists s, extract_client_name ua = Ok (VStr s) /\
            s <> [] /\ Forall client_char s.
Proof.
  destruct ua as [|c ua].
  - exists (py "Unknown"). repeat split; [discriminate|].
    repeat constructor.
  - rewrite extract_client_name_cons.
    destruct (known_client client_patterns (c :: ua)) as [r|] eqn:K.
    + apply known_client_sound with (names := client_names) in K.
      destruct K as (name & pre & w & post & HIn & _ & Hw & ->).
      destruct (client_names_literals name HIn) as [Hl Hne].
      exists w. repeat split.
      * intros ->. apply accepts_length in Hw. destruct (py name); [congruence|discriminate].
      * exact (accepts_client_chars _ _ Hl Hw).
    + destruct (re_search NOFLAG generic_product (c :: ua)) as [m|] eqn:G.
      * apply generic_search in G.
        destruct G as (x & run & rest & _ & Hx & Hrun & ->).
        exists (x :: run). repeat split; [discriminate|].
        constructor; [left; now apply letter_name_char|].
        apply Forall_forall. intros y Hy. left.
        rewrite forallb_forall in Hrun. now apply Hrun.
      * exists (py "Browser"). repeat split; [discriminate|].
        repeat constructor.
Qed.

(** X4: the client name is never empty, and each of its code points is an
    ASCII letter, digit, underscore or hyphen, or one of the three letters
    that IGNORECASE folds onto [i] and [s]: it holds no space, no slash, no
    pipe and no line break. *)
Theorem client_name_shape ua :
  exists s, extract_client_name ua = Ok (VStr s) /\
            s <> [] /\ Forall client_char s /\
            (forall c, In c s -> c <> 32 /\ c <> 47 /\ c <> 124 /\ c <> 10).
Proof.
  destruct (client_name_chars ua) as (s & E & Hne & Hs).
  exists s. repeat split; auto;
    rewrite Forall_forall in Hs; apply client_char_plain; auto.
Qed.

(** ** The route table *)

(** What a match of a rule of the table says of the path, and the model it
    gives. *)
Lemma route_shape_of_match r mode path m :
  In (r, mode) API_PATTERNS ->
  re_match NOFLAG r path = Some m ->
  exists g, model_of m = Ok (VStr g) /\
    ((mode = py "antigravity" /\ route_shape "/antigravity/v1" path g) \/
     (mode = py "geminicli" /\ route_shape "/v1" path g)).
Proof.
  unfold API_PATTERNS. intros HIn H.
  repeat (destruct HIn as [HIn|HIn]; [inv HIn|]); try contradiction;
    first
      [ apply models_route_match in H;
        destruct H as (G & g & C & Hg & Hall & mid & rest & E & Hmid);
        exists g; split;
        [ unfold model_of; rewrite (lastindex_1_of _ _ C);
          exact (group_1_of _ _ G C)
        | first [ left; split; [reflexivity|]; left; exists mid, rest; now auto
                | right; split; [reflexivity|]; left; exists mid, rest; now auto ] ]
      | apply literal_route_match in H; destruct H as (C & rest & E);
        exists (py "chat"); split;
        [ unfold model_of, lastindex; now rewrite C
        | first [ left; split; [reflexivity|]; right; split; [reflexivity|];
                  first [ left; exists rest; exact E | right; exists rest; exact E ]
                | right; split; [reflexivity|]; right; split; [reflexivity|];
                  first [ left; exists rest; exact E | right; exists rest; exact E ] ] ] ].
Qed.

Ltac path_of H :=
  first
    [ apply models_route_match in H;
      let g := fresh "g" in
      let mid := fresh "mid" in
      let rest := fresh "rest" in
      let E := fresh "E" in
      destruct H as (_ & g & _ & _ & _ & mid & rest & E & [-> | ->])
    | apply literal_route_match in H;
      let rest := fresh "rest" in
      let E := fresh "E" in
      destruct H as (_ & rest & E) ].

(** X5: the rules of the route table exclude one another: no path is matched
    by two of them, so the order of the table changes no classification. *)
Theorem routes_exclusive path rule1 rule2 m1 m2 :
  In rule1 API_PATTERNS -> In rule2 API_PATTERNS ->
  re_match NOFLAG (fst rule1) path = Some m1 ->
  re_match NOFLAG (fst rule2) path = Some m2 ->
  rule1 = rule2.
Proof.
  unfold API_PATTERNS. intros H1 H2 M1 M2.
  repeat (destruct H1 as [<-|H1]; [|]); try contradiction;
    repeat (destruct H2 as [<-|H2]; [|]); try contradiction;
    try reflexivity; exfalso; cbn [fst] in M1, M2;
    path_of M1; path_of M2;
    match goal with
    | A : path = _, B : path = _ |- _ =>
        rewrite A in B; vm_compute in B; discriminate B
    end.
Qed.

(** X5 at a path under the messages route. *)
Lemma routes_exclusive_witness :
  let rule := (parts [Bol; lit "/v1/messages"], py "geminicli") in
  let path := py "/v1/messages/count_tokens" in
  exists m,
    In rule API_PATTERNS /\
    re_match NOFLAG (fst rule) path = Some m /\
    rule = rule.
Proof.
  intros rule path.
  assert (HIn : In rule API_PATTERNS) by (simpl; auto 10).
  assert (S : exists m, re_match NOFLAG (fst rule) path = Some m)
    by (eexists; vm_compute; reflexivity).
  destruct S as (m & Hm). exists m.
  split; [exact HIn|]. split; [exact Hm|].
  exact (routes_exclusive path rule rule m m HIn HIn Hm Hm).
Defined.

Lemma shape_classified path model :
  (route_shape "/antigravity/v1" path model ->
   classified path (py "antigravity") model) /\
  (route_shape "/v1" path model -> classified path (py "geminicli") model).
Proof.
  split.
  - intros [(mid & rest & Hmid & Hg & Hall & ->)|(-> & [(rest & ->)|(rest & ->)])].
    + by_models_rule 0%nat "/antigravity/v1"%string mid model rest Hg Hall.
    + by_rule 1%nat.
    + by_rule 2%nat.
  - intros [(mid & rest & Hmid & Hg & Hall & ->)|(-> & [(rest & ->)|(rest & ->)])].
    + destruct Hmid as [-> | ->].
      * by_models_rule 3%nat "/v1"%string (@nil N) model rest Hg Hall.
      * by_models_rule 3%nat "/v1"%string (py "beta") model rest Hg Hall.
    + by_rule 4%nat.
    + by_rule 5%nat.
Qed.

(** X6: a path is classified, with a given mode and model, exactly when it
    has one of the three route shapes of that mode's API surface: the model
    route naming that model, or, for the model [chat], the chat-completions
    or the messages route as a prefix.  Nothing else is classified. *)
Theorem classification_iff path ua mode model :
  (exists client,
     parse_request_info path ua = Ok (Some (mode, VStr model, client))) <->
  (mode = py "antigravity" /\ route_shape "/antigravity/v1" path model) \/
  (mode = py "geminicli" /\ route_shape "/v1" path model).
Proof.
  split.
  - intros (client & H).
    destruct (parse_request_info_cases path ua)
      as [[_ E]|(before & r & mode' & after & m & g & c & E & _ & Hm & Hg & _ & Hp)];
      [congruence|].
    rewrite Hp in H. inv H.
    assert (HIn : In (r, mode) API_PATTERNS) by (rewrite E; apply in_elt).
    destruct (route_shape_of_match _ _ _ _ HIn Hm) as (g' & Hg' & S).
    rewrite Hg in Hg'. inv Hg'. exact S.
  - intros [[-> S]|[-> S]].
    + apply (proj1 (shape_classified path model)) in S.
      destruct (S ua) as (c & _ & P & _). eauto.
    + apply (proj2 (shape_classified path model)) in S.
      destruct (S ua) as (c & _ & P & _). eauto.
Qed.

Lemma not_colon_run g :
  forallb (cset_has not_colon) g = true -> ~ In 58 g.
Proof.
  intros H HIn. rewrite forallb_forall in H. apply H in HIn. discriminate.
Qed.

(** X7: the model of a classification is a string that is never empty and
    never holds a colon. *)
Theorem model_shape path ua mode model client :
  parse_request_info path ua = Ok (Some (mode, model, client)) ->
  exists g, model = VStr g /\ g <> [] /\ ~ In 58 g.
Proof.
  intros H.
  destruct (parse_request_info_cases path ua)
    as [[_ E]|(before & r & mode' & after & m & g & c & E & _ & Hm & Hg & _ & Hp)];
    [congruence|].
  rewrite Hp in H. inv H. exists g. split; [reflexivity|].
  assert (HIn : In (r, mode) API_PATTERNS) by (rewrite E; apply in_elt).
  destruct (route_shape_of_match _ _ _ _ HIn Hm) as (g' & Hg' & S).
  rewrite Hg in Hg'. inv Hg'.
  assert (S' : route_shape "/antigravity/v1" path g' \/ route_shape "/v1" path g')
    by (destruct S as [[_ S]|[_ S]]; auto).
  destruct S' as [S'|S'];
    destruct S' as [(mid & rest & _ & Hne & Hall & _)|(-> & _)];
    first [ split; [exact Hne | now apply not_colon_run]
          | split; [discriminate | vm_compute; intuition discriminate] ].
Qed.

(** X7 at a model route whose tail holds more colons. *)
Lemma model_shape_witness :
  let path := py "/v1/models/gemini-pro:generateContent:again" in
  parse_request_info path (py "curl/8.0") =
    Ok (Some (py "geminicli", VStr (py "gemini-pro"), VStr (py "curl"))) /\
  exists g, VStr (py "gemini-pro") = VStr g /\ g <> [] /\ ~ In 58 g.
Proof.
  intros path.
  assert (H : parse_request_info path (py "curl/8.0") =
              Ok (Some (py "geminicli", VStr (py "gemini-pro"), VStr (py "curl"))))
    by (vm_compute; reflexivity).
  split; [exact H|].
  exact (model_shape path (py "curl/8.0") _ _ _ H).
Defined.

(** The client of a classification is [extract_client_name] of the
    User-Agent. *)
Lemma parse_request_info_client path ua mode model client :
  parse_request_info path ua = Ok (Some (mode, model, client)) ->
  extract_client_name ua = Ok client.
Proof.
  intros H.
  destruct (parse_request_info_cases path ua)
    as [[_ E]|(before & r & mode' & after & m & g & c & _ & _ & _ & _ & Hc & Hp)];
    [congruence|].
  rewrite Hp in H. now inv H.
Qed.

(** X8: the User-Agent has no say in the classification of the path: whether
    a path is classified, and with which mode and model, is the same for every
    User-Agent, and the client of the result is [extract_client_name] of the
    User-Agent whatever the path. *)
Theorem user_agent_only_names_client path ua ua' :
  (parse_request_info path ua = Ok None ->
   parse_request_info path ua' = Ok None) /\
  (forall mode model client,
     parse_request_info path ua = Ok (Some (mode, model, client)) ->
     extract_client_name ua = Ok client /\
     exists client',
       extract_client_name ua' = Ok client' /\
       parse_request_info path ua' = Ok (Some (mode, model, client'))).
Proof.
  destruct (parse_request_info_cases path ua)
    as [[F E]|(before & r & mode & after & m & g & c & E & Hb & Hm & Hg & Hc & Hp)].
  - split; [|intros; congruence].
    intros _. now apply parse_rules_none.
  - split; [congruence|].
    intros mode' model client H. rewrite Hp in H. inv H.
    split; [exact Hc|].
    destruct (extract_client_name_str ua') as (c' & Hc').
    exists (VStr c'). split; [exact Hc'|].
    unfold parse_request_info.
    rewrite E, (parse_rules_first path ua' r mode' m before after Hb Hm), Hg, Hc'.
    reflexivity.
Qed.

(** X8 at a messages path asked for by two clients. *)
Lemma user_agent_only_names_client_witness :
  let path := py "/antigravity/v1/messages" in
  parse_request_info path (py "curl/8.0") =
    Ok (Some (py "antigravity", VStr (py "chat"), VStr (py "curl"))) /\
  extract_client_name (py "curl/8.0") = Ok (VStr (py "curl")) /\
  exists client',
    extract_client_name (py "") = Ok client' /\
    parse_request_info path (py "") =
    Ok (Some (py "antigravity", VStr (py "chat"), client')).
Proof.
  intros path.
  assert (H : parse_request_info path (py "curl/8.0") =
              Ok (Some (py "antigravity", VStr (py "chat"), VStr (py "curl"))))
    by (vm_compute; reflexivity).
  split; [exact H|].
  exact (proj2 (user_agent_only_names_client path (py "curl/8.0") (py "")) _ _ _ H).
Defined.

(** ** The middleware *)

(** X9: every run of [dispatch] writes at most one line to the log and hands
    the request on at most once.  When the URL of the request reads, the line
    if any comes first, then the request is handed on, and nothing is done
    once the next handler has answered or raised; when reading the URL
    raises, nothing is logged and nothing is handed on. *)
Theorem dispatch_trace (Response : Type) (next : Request -> result Response)
    (incoming : Incoming) :
  match read_url incoming with
  | Ok request =>
      exists lines,
        (length lines <= 1)%nat /\
        fst (run next (dispatch Response incoming)) =
        List.map Logged lines ++ [Forwarded request]
  | Raise e => run next (dispatch Response incoming) = ([], Raise e)
  end.
Proof.
  destruct incoming as [request|e]; simpl read_url; [|reflexivity].
  rewrite run_dispatch.
  destruct (parse_request_info_cases (url_path request) (user_agent_of request))
    as [[_ E]|(before & r & mode & after & m & g & c & _ & _ & _ & _ & _ & E)];
    rewrite E.
  - exists []. split; [auto | reflexivity].
  - eexists [_]. split; [auto | reflexivity].
Qed.

Lemma headers_get_absent hs key default :
  Forall (fun kv => fst kv <> key) hs -> headers_get hs key default = default.
Proof.
  induction 1 as [|[k v] hs Hk _ IH]; simpl; [reflexivity|].
  unfold str_eqb. destruct (list_eq_dec N.eq_dec k key); [|exact IH].
  simpl in Hk. contradiction.
Qed.

(** X10: a classified request that carries no User-Agent header is logged
    with the client [Unknown]. *)
Theorem no_user_agent_is_unknown (Response : Type)
    (next : Request -> result Response) (request : Request) mode model client :
  Forall (fun kv => fst kv <> py "user-agent") (headers request) ->
  parse_request_info (url_path request) (user_agent_of request) =
    Ok (Some (mode, model, client)) ->
  client = VStr (py "Unknown") /\
  logged (fst (run next (dispatch Response request))) =
    [emoji_of mode ++ py " " ++ format model ++ py " | " ++ py "Unknown"].
Proof.
  intros Hh H.
  assert (U : user_agent_of request = [])
    by (unfold user_agent_of; now apply headers_get_absent).
  assert (C : client = VStr (py "Unknown")).
  { pose proof (parse_request_info_client _ _ _ _ _ H) as Hc.
    rewrite U in Hc. simpl in Hc. congruence. }
  split; [exact C|].
  rewrite run_dispatch, H, C. reflexivity.
Qed.

(** X10 at a chat request with a host header only. *)
Lemma no_user_agent_is_unknown_witness :
  let request := MkRequest (py "/v1/chat/completions") [(py "host", py "localhost")] in
  Forall (fun kv => fst kv <> py "user-agent") (headers request) /\
  parse_request_info (url_path request) (user_agent_of request) =
    Ok (Some (py "geminicli", VStr (py "chat"), VStr (py "Unknown"))) /\
  VStr (py "Unknown") = VStr (py "Unknown") /\
  logged (fst (run (fun _ => Ok tt) (dispatch unit request))) =
    [emoji_of (py "geminicli") ++ py " " ++ format (VStr (py "chat")) ++
     py " | " ++ py "Unknown"].
Proof.
  intros request.
  assert (H1 : Forall (fun kv => fst kv <> py "user-agent") (headers request))
    by (repeat constructor; discriminate).
  assert (H2 : parse_request_info (url_path request) (user_agent_of request) =
               Ok (Some (py "geminicli", VStr (py "chat"), VStr (py "Unknown"))))
    by (vm_compute; reflexivity).
  split; [exact H1|]. split; [exact H2|].
  exact (no_user_agent_is_unknown unit (fun _ => Ok tt) request _ _ _ H1 H2).
Defined.
